(** * libArcus: the socket state machine and wire-framing engine

    A shallow embedding of [src/Socket_p.h] (class [SocketPrivate]): the
    per-tick body of [run], the staged frame decoder [receiveNextMessage],
    the encoder [sendMessage], the keepalive check and the two error
    reporters.  The operating system (sockets, the clock, the allocator)
    and the protobuf collaborators are parameters of the development. *)

From Stdlib Require Import ZArith List Bool Lia String.
From Stdlib.Strings Require Import Byte.
Import ListNotations.
Local Open Scope list_scope.
Local Open Scope Z_scope.

Set Implicit Arguments.

(** ** Machine integers *)

(** Conversion to [uint32_t]. *)
Definition u32 (x : Z) : Z := x mod 2 ^ 32.

(** Conversion of a 32-bit pattern to [int32_t] (two's complement). *)
Definition to_int32 (x : Z) : Z :=
  let y := u32 x in if y <? 2 ^ 31 then y else y - 2 ^ 32.

(** Conversion to [uint16_t], as done by [htons]. *)
Definition u16 (x : Z) : Z := x mod 2 ^ 16.

Definition byte_of_Z (x : Z) : byte :=
  match Byte.of_N (Z.to_N (x mod 256)) with
  | Some b => b
  | None => x00
  end.

Definition Z_of_byte (b : byte) : Z := Z.of_N (Byte.to_N b).

(** The four bytes, in memory order, of [htonl x]: most significant first. *)
Definition htonl (x : Z) : list byte :=
  let y := u32 x in
  [ byte_of_Z (Z.shiftr y 24); byte_of_Z (Z.shiftr y 16);
    byte_of_Z (Z.shiftr y 8); byte_of_Z y ].

(** [ntohl] of a four-byte buffer; [None] when the buffer is not four bytes. *)
Definition ntohl (buffer : list byte) : option Z :=
  match buffer with
  | [b0; b1; b2; b3] =>
      Some (Z.lor (Z.shiftl (Z_of_byte b0) 24)
           (Z.lor (Z.shiftl (Z_of_byte b1) 16)
           (Z.lor (Z.shiftl (Z_of_byte b2) 8) (Z_of_byte b3))))
  | _ => None
  end.

(** ** Constants of Socket_p.h *)

Definition VERSION_MAJOR : Z := 1.
Definition VERSION_MINOR : Z := 0.
Definition ARCUS_SIGNATURE : Z := 0x2BAD.

(** [#define SIG(n) (((n) & 0xffff0000) >> 16)]; the literal is unsigned, so
    the [int32_t] argument is converted to [uint32_t] first. *)
Definition SIG (n : Z) : Z := Z.shiftr (Z.land (u32 n) 0xffff0000) 16.

(** [static const int keepAliveRate = 500] *)
Definition keepAliveRate : Z := 500.

(** The limits handed to [CodedInputStream::SetTotalBytesLimit]. *)
Definition total_bytes_limit : Z := 500 * 1048576.
Definition warning_threshold : Z := 128 * 1048576.

(** ** Enumerations and records of the headers *)

Module SocketState.
(** Modelled from the spec: the enum [SocketState::SocketState] of Types.h,
    which the source includes and which section 3 of the specification
    lists. *)
Inductive SocketState :=
| Initial | Connecting | Opening | Listening
| Connected | Closing | Closed | Error.

Definition eqb (a b : SocketState) : bool :=
  match a, b with
  | Initial, Initial | Connecting, Connecting | Opening, Opening
  | Listening, Listening | Connected, Connected | Closing, Closing
  | Closed, Closed | Error, Error => true
  | _, _ => false
  end.
End SocketState.

Module ErrorCode.
(** Modelled from the spec: the enum [ErrorCode::ErrorCode] of Error.h, with
    the codes of section 7 of the specification. *)
Inductive ErrorCode :=
| UnknownError | AcceptFailedError | ReceiveFailedError | ParseFailedError
| UnknownMessageTypeError | ConnectionResetError | OutOfMemoryError.
End ErrorCode.

(** Modelled from the spec: the class [Error] of Error.h, a code, a text and
    the fatal flag, which is false unless [setFatalError] sets it. *)
Record Error := mkError {
  getErrorCode : ErrorCode.ErrorCode;
  getErrorMessage : string;
  isFatalError : bool
}.

Definition setFatalError (fatal : bool) (e : Error) : Error :=
  mkError (getErrorCode e) (getErrorMessage e) fatal.

Module WireMessage.
(** Modelled from the spec: the class [WireMessage] of WireMessage_p.h, the
    in-progress inbound frame of section 3 of the specification (parse
    stage, declared size, bytes received, type tag, payload buffer, valid
    flag). *)
Inductive MessageState :=
| MessageStateHeader | MessageStateSize | MessageStateType
| MessageStateData | MessageStateDispatch.

Definition state_eqb (a b : MessageState) : bool :=
  match a, b with
  | MessageStateHeader, MessageStateHeader
  | MessageStateSize, MessageStateSize
  | MessageStateType, MessageStateType
  | MessageStateData, MessageStateData
  | MessageStateDispatch, MessageStateDispatch => true
  | _, _ => false
  end.

Record WireMessage := mk {
  getState : MessageState;
  getSize : Z;
  getSizeReceived : Z;
  isValid : bool;
  getType : Z;
  getData : list byte
}.

(** A newly created frame awaits its header, is valid and owns no buffer. *)
Definition make : WireMessage :=
  mk MessageStateHeader 0 0 true 0 [].

Definition setState s (w : WireMessage) :=
  mk s (getSize w) (getSizeReceived w) (isValid w) (getType w) (getData w).
Definition setSize n (w : WireMessage) :=
  mk (getState w) (u32 n) (getSizeReceived w) (isValid w) (getType w) (getData w).
Definition setSizeReceived n (w : WireMessage) :=
  mk (getState w) (getSize w) (u32 n) (isValid w) (getType w) (getData w).
Definition setValid b (w : WireMessage) :=
  mk (getState w) (getSize w) (getSizeReceived w) b (getType w) (getData w).
Definition setType t (w : WireMessage) :=
  mk (getState w) (getSize w) (getSizeReceived w) (isValid w) (u32 t) (getData w).
Definition setData d (w : WireMessage) :=
  mk (getState w) (getSize w) (getSizeReceived w) (isValid w) (getType w) d.

(** The payload buffer is sized exactly to the declared size. *)
Definition allocateData (w : WireMessage) : WireMessage :=
  setData (repeat x00 (Z.to_nat (getSize w))) w.

Definition getRemainingSize (w : WireMessage) : Z :=
  to_int32 (getSize w - getSizeReceived w).

(** The frame is complete once [size] bytes have been accumulated. *)
Definition isComplete (w : WireMessage) : bool :=
  getSize w <=? getSizeReceived w.
End WireMessage.

(** [recv] stores what it read at [&getData()[offset]]. *)
Definition store_at (offset : Z) (bytes data : list byte) : list byte :=
  let o := Z.to_nat offset in
  firstn o data ++ bytes ++ skipn (o + List.length bytes)%nat data.

(** ** The environment *)

(** The socket calls the class makes. *)
Inductive SysCall :=
| sys_socket
| sys_connect (fd : Z) (address : string) (sin_port : Z)
| sys_bind (fd : Z) (address : string) (sin_port : Z)
| sys_listen (fd backlog : Z)
| sys_accept (fd : Z)
| sys_close (fd : Z)
| sys_setsockopt_rcvtimeo (fd tv_sec tv_usec : Z)
| sys_send (fd : Z) (buf : list byte)
| sys_recv (fd : Z) (len : Z).

(** What a call answers: a return value with the bytes it delivered, or [-1]
    with the [errno] it leaves behind.  For [recv] the count returned is the
    number of bytes delivered. *)
Inductive SysResult :=
| Ret (value : Z) (data : list byte)
| Fail (errno : Z).

(** A registered [SocketListener*]; listeners are told apart by a number. *)
Definition Listener := nat.

Inductive Mutex := sendQueueMutex | receiveQueueMutex.

(** What an observer of one run sees, in order: the socket calls, the lock
    operations, the changes to the two queues shared with other threads
    ([sendQueue.pop_front()] and [receiveQueue.push_back(...)]), the listener
    callbacks and the entries of [handleMessage]. *)
Inductive Event :=
| EvSys (c : SysCall)
| EvLock (m : Mutex)
| EvUnlock (m : Mutex)
| EvPopFront
| EvPushBack
| EvError (l : Listener) (e : Error)
| EvStateChanged (l : Listener) (s : SocketState.SocketState)
| EvMessageReceived (l : Listener)
| EvHandleMessage (w : WireMessage.WireMessage).

(** ** The class SocketPrivate *)

(** The collaborators and the platform the class is compiled against. *)
Record Env (Message : Type) := mkEnv {
  (** The protobuf message and what the class asks of it. *)
  env_ByteSize : Message -> Z;
  env_SerializeAsString : Message -> list byte;
  (** The collaborator [MessageTypeStore]. *)
  env_getMessageTypeId : Message -> Z;
  env_hasType : Z -> bool;
  env_createMessage : Z -> Message;
  (** [message->ParseFromCodedStream(&stream)] on a stream over the given
      bytes with the given total-bytes limit and warning threshold; [None]
      when it answers false. *)
  env_ParseFromCodedStream : Message -> list byte -> Z -> Z -> option Message;
  (** The operating system: what the n-th interaction with the environment
      answers to a socket call, what the clock then reads, and whether
      [new char[size]] then succeeds. *)
  env_os : nat -> SysCall -> SysResult;
  env_system_clock_now : nat -> Z;
  env_can_allocate : nat -> Z -> bool;
  (** Platform constants: the clock's ticks per millisecond, the value of
      [EAGAIN], and whether [_WIN32] is defined. *)
  env_ticks_per_ms : Z;
  env_EAGAIN : Z;
  env_WIN32 : bool
}.

Section Socket.

Variable Message : Type.
Variable env : Env Message.

Local Abbreviation ByteSize := (env_ByteSize env).
Local Abbreviation SerializeAsString := (env_SerializeAsString env).
Local Abbreviation getMessageTypeId := (env_getMessageTypeId env).
Local Abbreviation hasType := (env_hasType env).
Local Abbreviation createMessage := (env_createMessage env).
Local Abbreviation ParseFromCodedStream := (env_ParseFromCodedStream env).
Local Abbreviation os := (env_os env).
Local Abbreviation system_clock_now := (env_system_clock_now env).
Local Abbreviation can_allocate := (env_can_allocate env).
Local Abbreviation ticks_per_ms := (env_ticks_per_ms env).
Local Abbreviation EAGAIN := (env_EAGAIN env).
Local Abbreviation WIN32 := (env_WIN32 env).

Record SocketPrivate := mkSocketPrivate {
  state : SocketState.SocketState;
  next_state : SocketState.SocketState;
  address : string;
  port : Z;
  listeners : list Listener;
  current_message : option WireMessage.WireMessage;
  sendQueue : list Message;
  receiveQueue : list Message;
  socketId : Z;
  last_error : Error;
  lastKeepAliveSent : Z
}.

Definition set_state v (p : SocketPrivate) :=
  mkSocketPrivate v (next_state p) (address p) (port p) (listeners p)
    (current_message p) (sendQueue p) (receiveQueue p) (socketId p)
    (last_error p) (lastKeepAliveSent p).
Definition set_next_state v (p : SocketPrivate) :=
  mkSocketPrivate (state p) v (address p) (port p) (listeners p)
    (current_message p) (sendQueue p) (receiveQueue p) (socketId p)
    (last_error p) (lastKeepAliveSent p).
Definition set_current_message v (p : SocketPrivate) :=
  mkSocketPrivate (state p) (next_state p) (address p) (port p) (listeners p)
    v (sendQueue p) (receiveQueue p) (socketId p)
    (last_error p) (lastKeepAliveSent p).
Definition set_sendQueue v (p : SocketPrivate) :=
  mkSocketPrivate (state p) (next_state p) (address p) (port p) (listeners p)
    (current_message p) v (receiveQueue p) (socketId p)
    (last_error p) (lastKeepAliveSent p).
Definition set_receiveQueue v (p : SocketPrivate) :=
  mkSocketPrivate (state p) (next_state p) (address p) (port p) (listeners p)
    (current_message p) (sendQueue p) v (socketId p)
    (last_error p) (lastKeepAliveSent p).
Definition set_socketId v (p : SocketPrivate) :=
  mkSocketPrivate (state p) (next_state p) (address p) (port p) (listeners p)
    (current_message p) (sendQueue p) (receiveQueue p) v
    (last_error p) (lastKeepAliveSent p).
Definition set_last_error v (p : SocketPrivate) :=
  mkSocketPrivate (state p) (next_state p) (address p) (port p) (listeners p)
    (current_message p) (sendQueue p) (receiveQueue p) (socketId p)
    v (lastKeepAliveSent p).
Definition set_lastKeepAliveSent v (p : SocketPrivate) :=
  mkSocketPrivate (state p) (next_state p) (address p) (port p) (listeners p)
    (current_message p) (sendQueue p) (receiveQueue p) (socketId p)
    (last_error p) v.

(** The object together with the part of the world it runs in: how many
    times the environment has been consulted, the thread's [errno], and
    the events so far. *)
Record Machine := mkMachine {
  sp : SocketPrivate;
  calls : nat;
  errno : Z;
  trace : list Event
}.

(** A step either completes, or dereferences the null [current_message];
    both carry the machine as it then is. *)
Inductive Outcome (A : Type) :=
| Done (a : A) (m : Machine)
| NullDeref (m : Machine).
Arguments NullDeref {A} m.

Definition machine_of {A} (o : Outcome A) : Machine :=
  match o with Done _ m => m | NullDeref m => m end.

Definition M (A : Type) := Machine -> Outcome A.

Definition ret {A} (a : A) : M A := fun m => Done a m.

Definition bind {A B} (c : M A) (k : A -> M B) : M B :=
  fun m => match c m with
           | Done a m' => k a m'
           | NullDeref m' => NullDeref m'
           end.

Notation "x <- c ;; k" := (bind c (fun x => k))
  (at level 61, c at next level, right associativity).
Notation "c ;; k" := (bind c (fun _ => k))
  (at level 61, right associativity).

Definition this : M SocketPrivate := fun m => Done (sp m) m.

Definition assign (f : SocketPrivate -> SocketPrivate) : M unit :=
  fun m => Done tt (mkMachine (f (sp m)) (calls m) (errno m) (trace m)).

Definition emit (e : Event) : M unit :=
  fun m => Done tt (mkMachine (sp m) (calls m) (errno m) (trace m ++ [e])).

Definition get_errno : M Z := fun m => Done (errno m) m.

(** [sendQueue.pop_front()]: the queue loses its front element, as whoever
    shares the queue sees it.  (The loop that calls it tests
    [sendQueue.size() > 0] first.) *)
Definition pop_front : M unit :=
  fun m => Done tt (mkMachine (set_sendQueue (tl (sendQueue (sp m))) (sp m))
                      (calls m) (errno m) (trace m ++ [EvPopFront])).

(** [receiveQueue.push_back(message)] *)
Definition push_back (message : Message) : M unit :=
  fun m => Done tt (mkMachine
                      (set_receiveQueue (receiveQueue (sp m) ++ [message])
                         (sp m))
                      (calls m) (errno m) (trace m ++ [EvPushBack])).

(** One socket call: the environment answers, a failure leaves its
    [errno], and the call is recorded. *)
Definition syscall (c : SysCall) : M SysResult :=
  fun m =>
    let r := os (calls m) c in
    Done r (mkMachine (sp m) (S (calls m))
              (match r with Fail e => e | Ret _ _ => errno m end)
              (trace m ++ [EvSys c])).

Definition retval (r : SysResult) : Z :=
  match r with Ret v _ => v | Fail _ => -1 end.

(** [::recv(fd, dest, len, 0)]: the count and the bytes stored at [dest];
    no more than [len] bytes are ever delivered. *)
Definition recv (fd len : Z) : M (Z * list byte) :=
  r <- syscall (sys_recv fd len) ;;
  match r with
  | Ret _ data =>
      let got := firstn (Z.to_nat len) data in
      ret (Z.of_nat (List.length got), got)
  | Fail _ => ret (-1, [])
  end.

Definition send (fd : Z) (buf : list byte) : M Z :=
  r <- syscall (sys_send fd buf) ;; ret (retval r).

Definition close (fd : Z) : M unit :=
  _ <- syscall (sys_close fd) ;; ret tt.

Definition now : M Z :=
  fun m => Done (system_clock_now (calls m))
             (mkMachine (sp m) (S (calls m)) (errno m) (trace m)).

(** Whether [new char[size]] returns rather than throwing
    [std::bad_alloc]. *)
Definition try_new (size : Z) : M bool :=
  fun m => Done (can_allocate (calls m) size)
             (mkMachine (sp m) (S (calls m)) (errno m) (trace m)).

(** [for(auto listener : listeners) listener->f(...)] *)
Fixpoint for_each (ls : list Listener) (f : Listener -> Event) : M unit :=
  match ls with
  | [] => ret tt
  | l :: ls' => emit (f l) ;; for_each ls' f
  end.

Definition notify (f : Listener -> Event) : M unit :=
  p <- this ;; for_each (listeners p) f.

(** [current_message->...]: undefined when the pointer is null. *)
Definition deref {A} (k : WireMessage.WireMessage -> M A) : M A :=
  fun m => match current_message (sp m) with
           | Some w => k w m
           | None => NullDeref m
           end.

Definition update_current
    (f : WireMessage.WireMessage -> WireMessage.WireMessage) : M unit :=
  deref (fun w => assign (set_current_message (Some (f w)))).

(** [current_message.reset()] *)
Definition reset_current : M unit := assign (set_current_message None).

(** *** error and fatalError *)

Definition error (error_code : ErrorCode.ErrorCode) (message : string)
  : M unit :=
  let error := mkError error_code message false in
  assign (set_last_error error) ;;
  notify (fun listener => EvError listener error).

Definition fatalError (error_code : ErrorCode.ErrorCode) (message : string)
  : M unit :=
  let error := setFatalError true (mkError error_code message false) in
  assign (set_last_error error) ;;
  reset_current ;;
  assign (set_next_state SocketState.Error) ;;
  notify (fun listener => EvError listener error).

(** *** Reading and writing the socket *)

(** [readInt32(&dest)]: the result code and the value of [*dest] after the
    call, which is untouched unless four bytes arrived. *)
Definition readInt32 (dest : Z) : M (Z * Z) :=
  p <- this ;;
  r <- recv (socketId p) 4 ;;
  let '(num, buffer) := r in
  if negb (num =? 4) then ret (-1, dest)
  else match ntohl buffer with
       | Some v => ret (0, to_int32 v)
       | None => ret (-1, dest)
       end.

Definition readBytes (size : Z) : M (Z * list byte) :=
  p <- this ;;
  r <- recv (socketId p) size ;;
  let '(num, got) := r in
  if num =? -1 then ret (-1, got) else ret (num, got).

(** The four writes of one outbound frame; no result is looked at. *)
Definition sendMessage (message : Message) : M unit :=
  p <- this ;;
  let hdr := htonl (Z.lor (Z.shiftl ARCUS_SIGNATURE 16)
                   (Z.lor (Z.shiftl VERSION_MAJOR 8) VERSION_MINOR)) in
  _ <- send (socketId p) hdr ;;
  _ <- send (socketId p) (htonl (ByteSize message)) ;;
  _ <- send (socketId p) (htonl (getMessageTypeId message)) ;;
  _ <- send (socketId p) (SerializeAsString message) ;;
  ret tt.

Fixpoint send_all (messagesToSend : list Message) : M unit :=
  match messagesToSend with
  | [] => ret tt
  | message :: rest => sendMessage message ;; send_all rest
  end.

Definition setSocketReceiveTimeout (fd timeout : Z) : M unit :=
  _ <- syscall (sys_setsockopt_rcvtimeo fd 0 (timeout * 1000)) ;; ret tt.

(** [#ifndef _WIN32 if (errno == EAGAIN) #endif] *)
Definition would_block : M bool :=
  e <- get_errno ;; ret (negb WIN32 && (e =? EAGAIN)).

(** *** handleMessage *)

Definition handleMessage (wire_message : WireMessage.WireMessage) : M unit :=
  emit (EvHandleMessage wire_message) ;;
  if negb (hasType (WireMessage.getType wire_message)) then
    error ErrorCode.UnknownMessageTypeError "Unknown message type"
  else
    let message := createMessage (WireMessage.getType wire_message) in
    let array := firstn (Z.to_nat (WireMessage.getSize wire_message))
                   (WireMessage.getData wire_message) in
    match ParseFromCodedStream message array
            total_bytes_limit warning_threshold with
    | None => error ErrorCode.ParseFailedError "Failed to parse message"
    | Some parsed =>
        emit (EvLock receiveQueueMutex) ;;
        push_back parsed ;;
        emit (EvUnlock receiveQueueMutex) ;;
        notify EvMessageReceived
    end.

(** *** receiveNextMessage, stage by stage *)

(** Whether a stage fell through to the next [if] or executed [return]. *)
Inductive Flow := Next | Return.

Definition in_state (s : WireMessage.MessageState) (body : M Flow) : M Flow :=
  deref (fun w =>
    if WireMessage.state_eqb (WireMessage.getState w) s then body
    else ret Next).

Definition stage_header : M Flow :=
  in_state WireMessage.MessageStateHeader (
    r <- readInt32 0 ;;
    let header := snd r in
    if header =? 0 then ret Return
    else if negb (SIG header =? ARCUS_SIGNATURE) then
      error ErrorCode.ReceiveFailedError "Header mismatch" ;; ret Return
    else
      update_current (WireMessage.setState WireMessage.MessageStateSize) ;;
      ret Next).

Definition stage_size : M Flow :=
  in_state WireMessage.MessageStateSize (
    r <- readInt32 0 ;;
    let '(result, size) := r in
    if negb (result =? 0) then
      again <- would_block ;;
      if again then ret Return
      else error ErrorCode.ReceiveFailedError "Size invalid" ;; ret Return
    else if size <? 0 then
      error ErrorCode.ReceiveFailedError "Size invalid" ;; ret Return
    else
      update_current (WireMessage.setSize size) ;;
      update_current (WireMessage.setState WireMessage.MessageStateType) ;;
      ret Next).

Definition stage_type : M Flow :=
  in_state WireMessage.MessageStateType (
    r <- readInt32 0 ;;
    let '(result, type) := r in
    f <- (if negb (result =? 0) then
            again <- would_block ;;
            if again then ret Return
            else update_current (WireMessage.setValid false) ;; ret Next
          else ret Next) ;;
    match f with
    | Return => ret Return
    | Next =>
        let real_type := u32 type in
        deref (fun w =>
          ok <- try_new (WireMessage.getSize w) ;;
          if ok then
            update_current WireMessage.allocateData ;;
            update_current (WireMessage.setType real_type) ;;
            update_current (WireMessage.setState WireMessage.MessageStateData) ;;
            ret Next
          else
            fatalError ErrorCode.ReceiveFailedError "Out of memory" ;;
            ret Return)
    end).

Definition stage_data : M Flow :=
  in_state WireMessage.MessageStateData (
    deref (fun w =>
      r <- readBytes (WireMessage.getRemainingSize w) ;;
      let '(result, got) := r in
      if result =? -1 then
        again <- would_block ;;
        if again then ret Next else reset_current ;; ret Next
      else
        update_current
          (WireMessage.setData
             (store_at (WireMessage.getSizeReceived w) got
                (WireMessage.getData w))) ;;
        update_current
          (WireMessage.setSizeReceived
             (WireMessage.getSizeReceived w + result)) ;;
        deref (fun w' =>
          if WireMessage.isComplete w' then
            if negb (WireMessage.isValid w') then
              reset_current ;; ret Return
            else
              update_current
                (WireMessage.setState WireMessage.MessageStateDispatch) ;;
              ret Next
          else ret Next))).

Definition stage_dispatch : M Flow :=
  in_state WireMessage.MessageStateDispatch (
    deref (fun w => handleMessage w) ;;
    reset_current ;;
    ret Next).

Definition andthen (stage : M Flow) (rest : M unit) : M unit :=
  f <- stage ;; match f with Next => rest | Return => ret tt end.

Definition receiveNextMessage : M unit :=
  p <- this ;;
  (match current_message p with
   | None => assign (set_current_message (Some WireMessage.make))
   | Some _ => ret tt
   end) ;;
  andthen stage_header (
  andthen stage_size (
  andthen stage_type (
  andthen stage_data (
  andthen stage_dispatch (ret tt))))).

(** *** checkConnectionState *)

(** [duration_cast<milliseconds>(now - lastKeepAliveSent).count()] *)
Definition diff_count (t last : Z) : Z := Z.quot (t - last) ticks_per_ms.

Definition keepalive : list byte := [x00; x00; x00; x00].

Definition checkConnectionState : M unit :=
  t <- now ;;
  p <- this ;;
  if diff_count t (lastKeepAliveSent p) >? keepAliveRate then
    sent <- send (socketId p) keepalive ;;
    (if sent =? -1 then
       error ErrorCode.ConnectionResetError "Connection reset by peer" ;;
       assign (set_next_state SocketState.Closing)
     else ret tt) ;;
    assign (set_lastKeepAliveSent t)
  else ret tt.

(** *** run *)

(** The loop that moves [sendQueue] into [messagesToSend]:
    [while(sendQueue.size() > 0) { push_back(front()); pop_front(); }],
    by recursion on the queue as it is when the loop is entered: each
    iteration copies the front message to the local list and pops it. *)
Fixpoint drain_loop (queue messagesToSend : list Message)
  : M (list Message) :=
  match queue with
  | [] => ret messagesToSend
  | front :: rest =>
      pop_front ;; drain_loop rest (messagesToSend ++ [front])
  end.

Definition drain : M (list Message) :=
  emit (EvLock sendQueueMutex) ;;
  p <- this ;;
  messagesToSend <- drain_loop (sendQueue p) [] ;;
  emit (EvUnlock sendQueueMutex) ;;
  ret messagesToSend.

(** The body of the [switch] for one value of [state]. *)
Definition run_case (s : SocketState.SocketState) : M unit :=
  match s with
  | SocketState.Connecting =>
      fd <- syscall sys_socket ;;
      assign (set_socketId (retval fd)) ;;
      p <- this ;;
      c <- syscall (sys_connect (socketId p) (address p) (u16 (port p))) ;;
      if negb (retval c =? 0) then ret tt
      else
        setSocketReceiveTimeout (socketId p) 250 ;;
        assign (set_next_state SocketState.Connected)
  | SocketState.Opening =>
      fd <- syscall sys_socket ;;
      assign (set_socketId (retval fd)) ;;
      p <- this ;;
      b <- syscall (sys_bind (socketId p) (address p) (u16 (port p))) ;;
      if negb (retval b =? 0) then ret tt
      else assign (set_next_state SocketState.Listening)
  | SocketState.Listening =>
      p <- this ;;
      _ <- syscall (sys_listen (socketId p) 1) ;;
      a <- syscall (sys_accept (socketId p)) ;;
      let newSocket := retval a in
      (if newSocket =? -1 then
         fatalError ErrorCode.AcceptFailedError
           "Could not accept the incoming connection" ;;
         assign (set_next_state SocketState.Connected)
       else ret tt) ;;
      close (socketId p) ;;
      assign (set_socketId newSocket) ;;
      setSocketReceiveTimeout newSocket 250
  | SocketState.Connected =>
      messagesToSend <- drain ;;
      send_all messagesToSend ;;
      receiveNextMessage ;;
      p <- this ;;
      if negb (SocketState.eqb (next_state p) SocketState.Error) then
        checkConnectionState
      else ret tt
  | SocketState.Closing =>
      p <- this ;;
      close (socketId p) ;;
      assign (set_next_state SocketState.Closed)
  | _ => ret tt
  end.

(** The transition check that ends every iteration. *)
Definition commit : M unit :=
  p <- this ;;
  if negb (SocketState.eqb (next_state p) (state p)) then
    assign (fun q => set_state (next_state q) q) ;;
    q <- this ;;
    notify (fun listener => EvStateChanged listener (state q))
  else ret tt.

(** One iteration of the loop of [run]: a driver tick. *)
Definition tick : M unit :=
  p <- this ;; run_case (state p) ;; commit.

(** The loop condition of [run]. *)
Definition running (p : SocketPrivate) : bool :=
  negb (SocketState.eqb (state p) SocketState.Closed)
  && negb (SocketState.eqb (state p) SocketState.Error).

(** [run] for at most [fuel] iterations; the answer tells whether the loop
    was left because its condition failed. *)
Fixpoint run (fuel : nat) : M bool :=
  p <- this ;;
  if running p then
    match fuel with
    | O => ret false
    | S fuel' => tick ;; run fuel'
    end
  else ret true.

End Socket.

Arguments NullDeref {Message A} m.

(** The frame a receive cycle works on: the one in progress, or the one it
    creates when there is none. *)
Definition frame_in_progress {Message} (p : SocketPrivate Message)
  : WireMessage.WireMessage :=
  match current_message p with
  | Some w => w
  | None => WireMessage.make
  end.

(** The buffers of the four writes of one outbound frame. *)
Definition frame_buffers {Message} (env : Env Message) (message : Message)
  : list (list byte) :=
  [ htonl (Z.lor (Z.shiftl ARCUS_SIGNATURE 16)
          (Z.lor (Z.shiftl VERSION_MAJOR 8) VERSION_MINOR));
    htonl (env_ByteSize env message);
    htonl (env_getMessageTypeId env message);
    env_SerializeAsString env message ].

(** The four [send]s of one outbound frame on socket [fd]. *)
Definition frame_events {Message} (env : Env Message) (fd : Z)
    (message : Message) : list Event :=
  map (fun buf => EvSys (sys_send fd buf)) (frame_buffers env message).

(** The buffers handed to [send], in order, among some events. *)
Fixpoint sends_of (evs : list Event) : list (list byte) :=
  match evs with
  | [] => []
  | EvSys (sys_send _ buf) :: rest => buf :: sends_of rest
  | _ :: rest => sends_of rest
  end.

Definition is_state_changed (e : Event) : bool :=
  match e with EvStateChanged _ _ => true | _ => false end.

Definition is_send (e : Event) : bool :=
  match e with EvSys (sys_send _ _) => true | _ => false end.

(** A lock operation on the mutex of the outbound queue, or a change to
    that queue. *)
Definition on_send_queue (e : Event) : bool :=
  match e with
  | EvLock sendQueueMutex | EvUnlock sendQueueMutex | EvPopFront => true
  | _ => false
  end.

(** An error callback carrying a fatal error. *)
Definition is_fatal_report (e : Event) : bool :=
  match e with EvError _ err => isFatalError err | _ => false end.

(** An entry of [handleMessage] with a frame that is incomplete or invalid. *)
Definition is_bad_dispatch (e : Event) : bool :=
  match e with
  | EvHandleMessage w =>
      negb (WireMessage.isComplete w && WireMessage.isValid w)
  | _ => false
  end.

(** Whether [readInt32] fails on this answer of [recv]: anything but four
    bytes. *)
Definition short_read (r : SysResult) : bool :=
  match r with
  | Ret _ data => negb (Nat.eqb (List.length (firstn 4 data)) 4)
  | Fail _ => true
  end.

(** The [int32_t] that [readInt32] stores on this answer of [recv], if any. *)
Definition int32_read (r : SysResult) : option Z :=
  match r with
  | Ret _ data =>
      match ntohl (firstn 4 data) with
      | Some v => Some (to_int32 v)
      | None => None
      end
  | Fail _ => None
  end.

(** What one header-stage cycle leaves behind when [readInt32] stored
    nothing or stored zero: the frame in progress, still awaiting its
    header, and one recorded [recv]. *)
Definition after_idle_header {Message} (env : Env Message)
    (m : Machine Message) : Machine Message :=
  let c := sys_recv (socketId (sp m)) 4 in
  mkMachine (set_current_message (Some (frame_in_progress (sp m))) (sp m))
    (S (calls m))
    (match env_os env (calls m) c with Fail e => e | Ret _ _ => errno m end)
    (trace m ++ [EvSys c]).

(** The [errno] a socket call made now leaves behind. *)
Definition errno_after {Message} (env : Env Message) (m : Machine Message)
    (c : SysCall) : Z :=
  match env_os env (calls m) c with
  | Fail e => e
  | Ret _ _ => errno m
  end.

(** Whether a failed read is taken for would-block under this [errno]. *)
Definition retried {Message} (env : Env Message) (e : Z) : bool :=
  negb (env_WIN32 env) && (e =? env_EAGAIN env).

(** The bytes a payload read delivers into the frame [w], and the frame
    after they are stored and counted. *)
Definition payload_read (w : WireMessage.WireMessage) (data : list byte)
  : list byte :=
  firstn (Z.to_nat (WireMessage.getRemainingSize w)) data.

Definition accumulate (w : WireMessage.WireMessage) (got : list byte)
  : WireMessage.WireMessage :=
  WireMessage.setSizeReceived
    (WireMessage.getSizeReceived w + Z.of_nat (List.length got))
    (WireMessage.setData
       (store_at (WireMessage.getSizeReceived w) got (WireMessage.getData w))
       w).

(** ** Invariants of computations *)

(** [c] keeps [I]: from a machine in [I] it leaves a machine in [I], whether
    it completes or stops at a null dereference. *)
Definition stable {Message A} (I : Machine Message -> Prop)
    (c : M Message A) : Prop :=
  forall m, I m -> I (machine_of (c m)).

(** The object satisfies [Q] and every event after the first [t0] satisfies
    [P]. *)
Definition Inv {Message} (P : Event -> bool)
    (Q : SocketPrivate Message -> Prop) (t0 : list Event)
    (m : Machine Message) : Prop :=
  Q (sp m) /\ exists evs, trace m = t0 ++ evs /\ forallb P evs = true.

(** Whether the frame in progress, if it awaits dispatch, is complete and
    valid. *)
Definition dispatchable {Message} (p : SocketPrivate Message) : Prop :=
  match current_message p with
  | Some w =>
      WireMessage.getState w = WireMessage.MessageStateDispatch ->
      WireMessage.isComplete w = true /\ WireMessage.isValid w = true
  | None => True
  end.

(** No entry of [handleMessage] since [t0] was with an incomplete or invalid
    frame, and the frame in progress is dispatchable. *)
Definition whole_frames {Message} (t0 : list Event)
  : Machine Message -> Prop :=
  Inv (fun e => negb (is_bad_dispatch e)) (@dispatchable Message) t0.

(** ** A small instance, for running the model *)

Module Demo.

(** A message is its type identifier and its serialized bytes. *)
Definition Message : Type := (Z * list byte)%type.

(** The environment that answers the n-th interaction from a script (and
    would-block past its end), with a nanosecond clock and [EAGAIN = 11]. *)
Definition scripted (script : list SysResult) (clock : nat -> Z)
    (alloc : nat -> Z -> bool) : Env Message :=
  {| env_ByteSize := fun msg => Z.of_nat (List.length (snd msg));
     env_SerializeAsString := snd;
     env_getMessageTypeId := fst;
     env_hasType := fun t => t =? 7;
     env_createMessage := fun t => (t, []);
     env_ParseFromCodedStream := fun msg bytes limit _ =>
       if Z.of_nat (List.length bytes) <=? limit
       then Some (fst msg, bytes) else None;
     env_os := fun n _ => nth n script (Fail 11);
     env_system_clock_now := clock;
     env_can_allocate := alloc;
     env_ticks_per_ms := 1000000;
     env_EAGAIN := 11;
     env_WIN32 := false |}.

Definition no_error : Error := mkError ErrorCode.UnknownError "" false.

(** A socket in the given state, with two listeners and nothing queued. *)
Definition socket (s : SocketState.SocketState)
    (frame : option WireMessage.WireMessage) (queue : list Message)
  : Machine Message :=
  mkMachine
    (mkSocketPrivate s s "127.0.0.1" 9999 [1%nat; 2%nat] frame queue []
       5 no_error 0)
    0 0 [].

Definition always (b : bool) : nat -> Z -> bool := fun _ _ => b.
Definition at_time (t : Z) : nat -> Z := fun _ => t.

(** A frame at the given stage, valid, of declared size 2. *)
Definition frame_at (s : WireMessage.MessageState)
  : WireMessage.WireMessage :=
  WireMessage.mk s 2 0 true 0 [].

(** An invalid frame at the payload stage with one byte of two received. *)
Definition invalid_frame : WireMessage.WireMessage :=
  WireMessage.mk WireMessage.MessageStateData 2 1 false 0 [x41; x00].

(** Environments by what the peer does. *)
Definition sends_keepalive : Env Message :=
  scripted [Ret 4 keepalive] (at_time 0) (always true).
Definition sends_two_bytes : Env Message :=
  scripted [Ret 2 [x2b; xad]] (at_time 0) (always true).
Definition sends_wrong_signature : Env Message :=
  scripted [Ret 4 [xde; xad; xbe; xef]] (at_time 0) (always true).
Definition sends_negative_size : Env Message :=
  scripted [Ret 4 [xff; xff; xff; xff]] (at_time 0) (always true).
(** 0x1f400001 is 500 MiB + 1. *)
Definition sends_oversized_size : Env Message :=
  scripted [Ret 4 [x1f; x40; x00; x01]] (at_time 0) (always true).
Definition sends_last_byte : Env Message :=
  scripted [Ret 1 [x42]] (at_time 0) (always true).
Definition resets_type_read : Env Message :=
  scripted [Fail 104] (at_time 0) (always true).
(** [listen] succeeds, [accept] fails with EMFILE. *)
Definition refuses_accept : Env Message :=
  scripted [Ret 0 []; Fail 24] (at_time 0) (always true).
(** Nothing to read; 501 ms after the last keepalive, the probe fails with
    EPIPE. *)
Definition quiet_then_reset : Env Message :=
  scripted [Fail 11; Ret 0 []; Fail 32] (at_time 501000000) (always true).

(** Nothing to read, 500.999999 ms after the last keepalive. *)
Definition quiet_short_of_501ms : Env Message :=
  scripted [Fail 11] (at_time 500999999) (always true).

Definition two_messages : list Message := [(7, [x01; x02]); (7, [x03])].

End Demo.

(** ** Well-formed frames *)

(** What the decoder keeps true of the frame in progress: nothing is counted
    as received before the payload stage, the declared size fits an
    [int32_t] from the type stage on, and from the payload stage on the bytes
    received do not exceed the declared size and the buffer has exactly the
    declared size. *)
Definition frame_wf (w : WireMessage.WireMessage) : Prop :=
  match WireMessage.getState w with
  | WireMessage.MessageStateHeader | WireMessage.MessageStateSize =>
      WireMessage.getSizeReceived w = 0
  | WireMessage.MessageStateType =>
      WireMessage.getSizeReceived w = 0 /\
      0 <= WireMessage.getSize w < 2 ^ 31
  | WireMessage.MessageStateData | WireMessage.MessageStateDispatch =>
      0 <= WireMessage.getSizeReceived w <= WireMessage.getSize w /\
      WireMessage.getSize w < 2 ^ 31 /\
      List.length (WireMessage.getData w)
        = Z.to_nat (WireMessage.getSize w)
  end.

Definition frames_wf {Message} (p : SocketPrivate Message) : Prop :=
  match current_message p with
  | Some w => frame_wf w
  | None => True
  end.

(** The 32-bit word that opens every frame. *)
Definition header_word : Z :=
  Z.lor (Z.shiftl ARCUS_SIGNATURE 16)
    (Z.lor (Z.shiftl VERSION_MAJOR 8) VERSION_MINOR).

(** The frame [handleMessage] is entered with when [message] has been taken
    in whole. *)
Definition received_frame {Message} (env : Env Message) (message : Message)
  : WireMessage.WireMessage :=
  WireMessage.mk WireMessage.MessageStateDispatch
    (env_ByteSize env message) (env_ByteSize env message) true
    (u32 (env_getMessageTypeId env message))
    (env_SerializeAsString env message).

(** The frame in progress is well formed, whatever the events. *)
Definition sized_frames {Message} (t0 : list Event)
  : Machine Message -> Prop :=
  Inv (fun _ : Event => true) (@frames_wf Message) t0.

(** ** Kinds of socket calls *)


(** Moving bytes: [send] or [recv]. *)
Definition is_transfer (e : Event) : bool :=
  match e with
  | EvSys (sys_send _ _) | EvSys (sys_recv _ _) => true
  | _ => false
  end.

(** Anything but a socket call other than [recv]. *)
Definition recv_at_most (e : Event) : bool :=
  match e with
  | EvSys (sys_recv _ _) => true
  | EvSys _ => false
  | _ => true
  end.

(** What [run] leaves alone in the object: the endpoint and the listeners;
    and the inbound queue it only appends to. *)
Definition extends {Message} (p0 p : SocketPrivate Message) : Prop :=
  address p = address p0 /\ port p = port p0 /\
  listeners p = listeners p0 /\
  exists arrived, receiveQueue p = receiveQueue p0 ++ arrived.

(** What a receive cycle leaves alone in the object. *)
Definition same_connection {Message} (p0 p : SocketPrivate Message) : Prop :=
  state p = state p0 /\ socketId p = socketId p0 /\
  sendQueue p = sendQueue p0 /\ listeners p = listeners p0 /\
  lastKeepAliveSent p = lastKeepAliveSent p0.

(** ** More peers, for running the model *)

Module Peer.
Import Demo.

(** The peer whose next four bytes are the word [x] in network byte order. *)
Definition sends_word (x : Z) : Env Message :=
  scripted [Ret 4 (htonl x)] (at_time 0) (always true).

(** The peer whose next four bytes are the signature and a version of its
    own. *)
Definition sends_header (major minor : byte) : Env Message :=
  scripted [Ret 4 [x2b; xad; major; minor]] (at_time 0) (always true).

(** The peer that sends nothing: every read would block. *)
Definition quiet : Env Message := scripted [] (at_time 0) (always true).

Definition a_message : Message := (7, [x01; x02]).

(** The peer that sends [a_message], one buffer of the frame per read; the
    fourth interaction is the allocation of the payload buffer. *)
Definition sends_a_message : Env Message :=
  scripted
    [Ret 4 (htonl header_word); Ret 4 (htonl 2); Ret 4 (htonl 7); Ret 0 [];
     Ret 2 [x01; x02]]
    (at_time 0) (always true).

(** A valid frame of type 7 at the payload stage with one byte of two
    received. *)
Definition half_frame : WireMessage.WireMessage :=
  WireMessage.mk WireMessage.MessageStateData 2 1 true 7 [x41; x00].




(** [listen] succeeds, [accept] answers 8, [close] and [setsockopt]
    succeed. *)
Definition accepts_peer : Env Message :=
  scripted [Ret 0 []; Ret 8 []; Ret 0 []; Ret 0 []] (at_time 0) (always true).

(** The peer sends the type tag 7, and no buffer can be allocated. *)
Definition sends_type_no_memory : Env Message :=
  scripted [Ret 4 (htonl 7)] (at_time 0) (always false).

End Peer.


(** ** Running the model symbolically *)

(** Unfolds the monad and the straight-line code down to the environment's
    answers; loops over listeners and queues are left to their lemmas. *)
Tactic Notation "exec" :=
  cbv beta iota zeta delta
    [bind ret this assign emit get_errno pop_front push_back syscall recv send
     close now try_new deref update_current reset_current in_state andthen
     readBytes setSocketReceiveTimeout would_block
     stage_header stage_size stage_type stage_data stage_dispatch
     receiveNextMessage checkConnectionState commit tick run_case
     sp calls errno trace machine_of
     state next_state address port listeners current_message sendQueue
     receiveQueue socketId last_error lastKeepAliveSent
     set_state set_next_state set_current_message set_sendQueue
     set_receiveQueue set_socketId set_last_error set_lastKeepAliveSent
     frame_in_progress fst snd].

Tactic Notation "exec" "in" hyp(H) :=
  cbv beta iota zeta delta
    [bind ret this assign emit get_errno pop_front push_back syscall recv send
     close now try_new deref update_current reset_current in_state andthen
     readBytes setSocketReceiveTimeout would_block
     stage_header stage_size stage_type stage_data stage_dispatch
     receiveNextMessage checkConnectionState commit tick run_case
     sp calls errno trace machine_of
     state next_state address port listeners current_message sendQueue
     receiveQueue socketId last_error lastKeepAliveSent
     set_state set_next_state set_current_message set_sendQueue
     set_receiveQueue set_socketId set_last_error set_lastKeepAliveSent
     frame_in_progress fst snd] in H.

(** The same, through the operations of a frame given by its fields. *)
Ltac exec_frame :=
  repeat (progress
    (exec;
     cbv beta iota delta
       [WireMessage.state_eqb WireMessage.getState WireMessage.getSize
        WireMessage.getSizeReceived WireMessage.isValid WireMessage.getType
        WireMessage.getData WireMessage.setState WireMessage.setSize
        WireMessage.setSizeReceived WireMessage.setValid WireMessage.setType
        WireMessage.setData WireMessage.allocateData])).

Tactic Notation "frame_fields" "in" hyp(H) :=
  cbv beta iota delta
    [WireMessage.state_eqb WireMessage.getState WireMessage.getSize
     WireMessage.getSizeReceived WireMessage.isValid WireMessage.getType
     WireMessage.getData WireMessage.setState WireMessage.setSize
     WireMessage.setSizeReceived WireMessage.setValid WireMessage.setType
     WireMessage.setData WireMessage.allocateData] in H.

Ltac destruct_machine m :=
  let s := fresh "s" in let ns := fresh "ns" in let a := fresh "addr" in
  let po := fresh "po" in let ls := fresh "ls" in let cm := fresh "cm" in
  let sq := fresh "sq" in let rq := fresh "rq" in let fd := fresh "fd" in
  let le := fresh "le" in let lk := fresh "lk" in let c := fresh "c" in
  let e := fresh "e" in let t := fresh "t" in
  destruct m as [[s ns a po ls cm sq rq fd le lk] c e t].

Lemma sends_of_app evs evs' :
  sends_of (evs ++ evs') = sends_of evs ++ sends_of evs'.
Proof.
  induction evs as [|e evs IH]; [reflexivity|].
  destruct e as [[] | | | | | | | |]; simpl; now rewrite IH.
Qed.

Lemma sends_of_none evs :
  forallb (fun e => negb (is_send e)) evs = true -> sends_of evs = [].
Proof.
  induction evs as [|e evs IH]; [reflexivity|]. simpl.
  intros H. apply andb_prop in H. destruct H as [He Hevs].
  destruct e as [[] | | | | | | | |]; simpl in *; try discriminate; now apply IH.
Qed.

Lemma forallb_both (P1 P2 : Event -> bool) evs :
  forallb (fun e => P1 e && P2 e) evs = true ->
  forallb P1 evs = true /\ forallb P2 evs = true.
Proof.
  induction evs as [|e evs IH]; [now split|]. cbn [forallb].
  intros H. apply andb_prop in H. destruct H as [He Hevs].
  apply andb_prop in He. destruct He as [H1 H2].
  destruct (IH Hevs) as [IH1 IH2]. now rewrite H1, H2, IH1, IH2.
Qed.

Lemma off_send_queue_map (f : Listener -> Event) ls :
  (forall l, on_send_queue (f l) = false) ->
  forallb (fun e => negb (on_send_queue e)) (map f ls) = true.
Proof.
  intros H. induction ls as [|l ls IH]; [reflexivity|].
  cbn [map forallb]. now rewrite H, IH.
Qed.

Lemma sends_of_errors report ls :
  sends_of (map (fun l => EvError l report) ls) = [].
Proof. induction ls; [reflexivity | exact IHls]. Qed.

Lemma sends_of_state_changed st ls :
  sends_of (map (fun l => EvStateChanged l st) ls) = [].
Proof. induction ls; [reflexivity | exact IHls]. Qed.

Lemma sends_of_pops {A} (queue : list A) :
  sends_of (map (fun _ => EvPopFront) queue) = [].
Proof. induction queue; [reflexivity | exact IHqueue]. Qed.

Lemma sends_of_frame_events {Message} (env : Env Message) fd queue :
  sends_of (flat_map (frame_events env fd) queue)
  = flat_map (frame_buffers env) queue.
Proof.
  induction queue as [|message rest IH]; [reflexivity|].
  cbn [flat_map]. rewrite sends_of_app, IH. reflexivity.
Qed.

Module SocketStateFacts.
Lemma eqb_spec a b : reflect (a = b) (SocketState.eqb a b).
Proof. destruct a, b; simpl; constructor; congruence. Qed.

Lemma eqb_refl a : SocketState.eqb a a = true.
Proof. destruct a; reflexivity. Qed.
End SocketStateFacts.

Section Run.

Variable Message : Type.
Variable env : Env Message.

Implicit Types (m : Machine Message) (p : SocketPrivate Message).

Lemma for_each_run (f : Listener -> Event) ls m :
  for_each ls f m =
    Done tt (mkMachine (sp m) (calls m) (errno m) (trace m ++ map f ls)).
Proof.
  revert m. induction ls as [|l ls IH]; intros [p c e t]; simpl.
  - unfold ret. now rewrite app_nil_r.
  - unfold bind, emit. simpl. rewrite IH. simpl.
    now rewrite <- app_assoc.
Qed.

Lemma notify_run (f : Listener -> Event) m :
  notify f m =
    Done tt (mkMachine (sp m) (calls m) (errno m)
               (trace m ++ map f (listeners (sp m)))).
Proof. unfold notify, bind, this. apply for_each_run. Qed.

Lemma error_run code (msg : string) m :
  error code msg m =
    Done tt (mkMachine (set_last_error (mkError code msg false) (sp m))
               (calls m) (errno m)
               (trace m ++ map (fun l => EvError l (mkError code msg false))
                               (listeners (sp m)))).
Proof. destruct_machine m. unfold error. exec. now rewrite notify_run. Qed.

Lemma fatalError_run code (msg : string) m :
  fatalError code msg m =
    Done tt (mkMachine
               (set_next_state SocketState.Error
                  (set_current_message None
                     (set_last_error (mkError code msg true) (sp m))))
               (calls m) (errno m)
               (trace m ++ map (fun l => EvError l (mkError code msg true))
                               (listeners (sp m)))).
Proof.
  destruct_machine m. unfold fatalError. exec. now rewrite notify_run.
Qed.

Lemma ntohl_firstn_None data :
  Nat.eqb (List.length (firstn 4 data)) 4 = false -> ntohl (firstn 4 data) = None.
Proof.
  destruct data as [|b0 [|b1 [|b2 [|b3 rest]]]]; simpl; try reflexivity.
  discriminate.
Qed.

Lemma readInt32_run dest m :
  readInt32 env dest m =
    let c := sys_recv (socketId (sp m)) 4 in
    let r := env_os env (calls m) c in
    Done (match int32_read r with
          | Some v => (0, v)
          | None => (-1, dest)
          end)
      (mkMachine (sp m) (S (calls m))
         (match r with Fail e => e | Ret _ _ => errno m end)
         (trace m ++ [EvSys c])).
Proof.
  destruct_machine m. unfold readInt32. exec. unfold int32_read.
  destruct (env_os env c (sys_recv fd 4)) as [v data|e'];
    [|reflexivity].
  change (Z.to_nat 4) with 4%nat.
  set (buf := firstn 4 data).
  destruct (Nat.eqb (List.length buf) 4) eqn:Hlen.
  - apply Nat.eqb_eq in Hlen. rewrite Hlen.
    change (negb (Z.of_nat 4 =? 4)) with false. cbv iota.
    destruct (ntohl buf); reflexivity.
  - unfold buf in *. rewrite (ntohl_firstn_None _ Hlen).
    apply Nat.eqb_neq in Hlen.
    destruct (Z.of_nat (List.length (firstn 4 data)) =? 4) eqn:Hz;
      [|reflexivity].
    apply Z.eqb_eq in Hz. lia.
Qed.

Lemma header_stage_idle m :
  WireMessage.getState (frame_in_progress (sp m))
    = WireMessage.MessageStateHeader ->
  match int32_read (env_os env (calls m) (sys_recv (socketId (sp m)) 4)) with
  | Some v => v = 0
  | None => True
  end ->
  receiveNextMessage env m = Done tt (after_idle_header env m).
Proof.
  intros Hst Hread. unfold after_idle_header.
  destruct_machine m. unfold receiveNextMessage.
  destruct cm as [w|]; exec; exec in Hst; exec in Hread;
    try rewrite Hst; cbv beta iota delta [WireMessage.state_eqb];
    rewrite readInt32_run; exec;
    destruct (int32_read (env_os env c (sys_recv fd 4))) as [v|];
    subst; reflexivity.
Qed.

(** The loop pops once per message that was queued when it was entered, and
    hands those messages over in their order. *)
Lemma drain_loop_run (queue messagesToSend : list Message) m :
  drain_loop queue messagesToSend m =
    Done (messagesToSend ++ queue)
      (mkMachine
         (set_sendQueue (skipn (List.length queue) (sendQueue (sp m))) (sp m))
         (calls m) (errno m)
         (trace m ++ map (fun _ => EvPopFront) queue)).
Proof.
  revert messagesToSend m.
  induction queue as [|front rest IH]; intros acc m.
  - destruct_machine m. cbn. unfold ret. now rewrite !app_nil_r.
  - cbn [drain_loop]. unfold bind, pop_front. rewrite IH.
    destruct_machine m.
    cbn [sp calls errno trace sendQueue set_sendQueue List.length map].
    rewrite <- !app_assoc. cbn [app].
    replace (skipn (List.length rest) (tl sq))
      with (skipn (S (List.length rest)) sq)
      by (destruct sq; [now rewrite !skipn_nil | reflexivity]).
    reflexivity.
Qed.

Lemma drain_run m :
  drain m =
    Done (sendQueue (sp m))
      (mkMachine (set_sendQueue [] (sp m)) (calls m) (errno m)
         (trace m ++ EvLock sendQueueMutex
            :: map (fun _ => EvPopFront) (sendQueue (sp m))
            ++ [EvUnlock sendQueueMutex])).
Proof.
  destruct_machine m. unfold drain. exec.
  rewrite drain_loop_run. exec. rewrite skipn_all.
  repeat rewrite <- app_assoc. reflexivity.
Qed.

Lemma sendMessage_run message m :
  exists c' e',
    sendMessage env message m =
      Done tt (mkMachine (sp m) c' e'
                 (trace m ++ frame_events env (socketId (sp m)) message)).
Proof.
  destruct_machine m. unfold sendMessage. exec.
  eexists; eexists. f_equal. f_equal.
  unfold frame_events, frame_buffers. cbn [map].
  repeat rewrite <- app_assoc. reflexivity.
Qed.

Lemma send_all_run messagesToSend m :
  exists c' e',
    send_all env messagesToSend m =
      Done tt (mkMachine (sp m) c' e'
                 (trace m ++ flat_map (frame_events env (socketId (sp m)))
                               messagesToSend)).
Proof.
  revert m. induction messagesToSend as [|message rest IH]; intros m.
  - exists (calls m), (errno m). destruct m. simpl. unfold ret.
    now rewrite app_nil_r.
  - cbn [send_all flat_map]. unfold bind.
    destruct (sendMessage_run message m) as (c1 & e1 & ->).
    destruct (IH (mkMachine (sp m) c1 e1
                    (trace m ++ frame_events env (socketId (sp m)) message)))
      as (c2 & e2 & ->).
    exists c2, e2. cbn [sp trace]. now rewrite <- app_assoc.
Qed.

Lemma commit_run m :
  commit m =
    Done tt
      (if SocketState.eqb (next_state (sp m)) (state (sp m)) then m
       else mkMachine (set_state (next_state (sp m)) (sp m))
              (calls m) (errno m)
              (trace m ++ map (fun l => EvStateChanged l (next_state (sp m)))
                            (listeners (sp m)))).
Proof.
  destruct_machine m. unfold commit. exec.
  destruct (SocketState.eqb ns s); cbv beta iota delta [negb];
    [reflexivity|]. now rewrite notify_run.
Qed.

(** A keepalive check sends nothing, or the one keepalive, and leaves the
    outbound queue and its lock alone. *)
Lemma checkConnectionState_sends m :
  exists m' evs,
    checkConnectionState env m = Done tt m' /\
    sendQueue (sp m') = sendQueue (sp m) /\
    trace m' = trace m ++ evs /\
    forallb (fun e => negb (on_send_queue e)) evs = true /\
    (sends_of evs = [] \/ sends_of evs = [keepalive]).
Proof.
  destruct_machine m. exec.
  destruct (diff_count env (env_system_clock_now env c) lk >? keepAliveRate);
    exec.
  - destruct (retval (env_os env (S c) (sys_send fd keepalive)) =? -1);
      exec; [rewrite error_run; exec|].
    + eexists; eexists. split; [reflexivity|]. split; [reflexivity|].
      split; [symmetry; apply app_assoc|].
      split; [apply (off_send_queue_map _ ls); reflexivity|]. right.
      cbn [sends_of app]. now rewrite sends_of_errors.
    + eexists; eexists. split; [reflexivity|]. split; [reflexivity|].
      split; [reflexivity|]. split; [reflexivity|]. right. reflexivity.
  - exists (mkMachine (mkSocketPrivate s ns addr po ls cm sq rq fd le lk)
              (S c) e t), [].
    split; [reflexivity|]. split; [reflexivity|].
    split; [now rewrite app_nil_r|]. split; [reflexivity | now left].
Qed.

Lemma run_step fuel m :
  running (sp m) = true ->
  run env (S fuel) m = bind (tick env) (fun _ => run env fuel) m.
Proof.
  intros H. cbn [run]. unfold bind at 1, this at 1. now rewrite H.
Qed.

Lemma run_stop fuel m :
  running (sp m) = false -> run env fuel m = Done true m.
Proof.
  intros H. destruct fuel; cbn [run]; unfold bind at 1, this at 1;
    now rewrite H.
Qed.

End Run.

(** ** Keeping an invariant through the code *)

Section Stability.

Variable Message : Type.
Variable env : Env Message.
Variable I : Machine Message -> Prop.

Lemma stable_ret A (a : A) : stable I (ret a).
Proof. intros m H. exact H. Qed.

Lemma stable_this : stable I (@this Message).
Proof. intros m H. exact H. Qed.

Lemma stable_get_errno : stable I (@get_errno Message).
Proof. intros m H. exact H. Qed.

Lemma stable_bind A B (c : M Message A) (k : A -> M Message B) :
  stable I c -> (forall a, stable I (k a)) -> stable I (bind c k).
Proof.
  intros Hc Hk m H. unfold bind. specialize (Hc m H).
  destruct (c m) as [a m'|m']; simpl in *; [apply Hk|]; exact Hc.
Qed.

Lemma stable_deref A (k : WireMessage.WireMessage -> M Message A) :
  (forall w, stable I (k w)) -> stable I (deref k).
Proof.
  intros Hk m H. unfold deref.
  destruct (current_message (sp m)); [now apply Hk | exact H].
Qed.

Lemma stable_andthen (stage : M Message Flow) (rest : M Message unit) :
  stable I stage -> stable I rest -> stable I (andthen stage rest).
Proof.
  intros Hs Hr. apply stable_bind; [exact Hs|].
  intros []; [exact Hr | apply stable_ret].
Qed.

Lemma stable_assign f :
  (forall m, I m -> I (mkMachine (f (sp m)) (calls m) (errno m) (trace m))) ->
  stable I (assign f).
Proof. intros Hf m H. now apply Hf. Qed.

Lemma stable_emit e :
  (forall m, I m ->
     I (mkMachine (sp m) (calls m) (errno m) (trace m ++ [e]))) ->
  stable I (@emit Message e).
Proof. intros He m H. now apply He. Qed.

Lemma stable_for_each ls (f : Listener -> Event) :
  (forall l, stable I (@emit Message (f l))) -> stable I (for_each ls f).
Proof.
  intros Hf. induction ls as [|l ls IH]; simpl.
  - apply stable_ret.
  - apply stable_bind; [apply Hf | intros _; exact IH].
Qed.

Lemma stable_drain_loop (queue messagesToSend : list Message) :
  stable I (@pop_front Message) -> stable I (drain_loop queue messagesToSend).
Proof.
  intros Hpop. revert messagesToSend.
  induction queue as [|front rest IH]; intros acc; simpl.
  - apply stable_ret.
  - apply stable_bind; [exact Hpop | intros _; apply IH].
Qed.

Lemma stable_send_all messagesToSend :
  (forall message, stable I (sendMessage env message)) ->
  stable I (send_all env messagesToSend).
Proof.
  intros Hs. induction messagesToSend as [|message rest IH]; simpl.
  - apply stable_ret.
  - apply stable_bind; [apply Hs | intros _; exact IH].
Qed.

End Stability.

Section Invariant.

Variable Message : Type.
Variable env : Env Message.
Variable P : Event -> bool.
Variable Q : SocketPrivate Message -> Prop.
Variable t0 : list Event.

Lemma Inv_events m evs :
  forallb P evs = true -> Inv P Q t0 m ->
  Inv P Q t0 (mkMachine (sp m) (calls m) (errno m) (trace m ++ evs)).
Proof.
  intros Hevs [HS (evs0 & Ht & H0)]. split; [exact HS|].
  exists (evs0 ++ evs). simpl. rewrite Ht, <- app_assoc. split; [reflexivity|].
  rewrite forallb_app, H0, Hevs. reflexivity.
Qed.

Lemma Inv_step p c e t p' c' e' evs :
  Inv P Q t0 (mkMachine p c e t) -> Q p' -> forallb P evs = true ->
  Inv P Q t0 (mkMachine p' c' e' (t ++ evs)).
Proof.
  intros [_ (evs0 & Ht & H0)] HQ Hevs. split; [exact HQ|].
  exists (evs0 ++ evs). cbn [trace] in *. rewrite Ht, <- app_assoc.
  split; [reflexivity|]. now rewrite forallb_app, H0, Hevs.
Qed.

Lemma Inv_step0 p c e t p' c' e' :
  Inv P Q t0 (mkMachine p c e t) -> Q p' ->
  Inv P Q t0 (mkMachine p' c' e' t).
Proof. intros [_ Ht] HQ. split; [exact HQ | exact Ht]. Qed.

Lemma forallb_map_ok (f : Listener -> Event) ls :
  (forall l, P (f l) = true) -> forallb P (map f ls) = true.
Proof.
  intros H. induction ls; simpl; [reflexivity|]. now rewrite H, IHls.
Qed.

Lemma Inv_assign f :
  (forall p, Q p -> Q (f p)) -> stable (Inv P Q t0) (assign f).
Proof.
  intros Hf. apply stable_assign. intros m [HS Ht]. split; [|exact Ht].
  now apply Hf.
Qed.

Lemma Inv_emit e : P e = true -> stable (Inv P Q t0) (@emit Message e).
Proof.
  intros He. apply stable_emit. intros m H. apply Inv_events; [|exact H].
  simpl. now rewrite He.
Qed.

Lemma Inv_pop_front :
  P EvPopFront = true ->
  (forall p, Q p -> Q (set_sendQueue (tl (sendQueue p)) p)) ->
  stable (Inv P Q t0) (@pop_front Message).
Proof.
  intros He Hf m [HQ (evs & Ht & Hevs)]. split; [now apply Hf|].
  exists (evs ++ [EvPopFront]). cbn. rewrite Ht, <- app_assoc.
  split; [reflexivity|]. rewrite forallb_app, Hevs. cbn. now rewrite He.
Qed.

Lemma Inv_push_back (message : Message) :
  P EvPushBack = true ->
  (forall p, Q p -> Q (set_receiveQueue (receiveQueue p ++ [message]) p)) ->
  stable (Inv P Q t0) (push_back message).
Proof.
  intros He Hf m [HQ (evs & Ht & Hevs)]. split; [now apply Hf|].
  exists (evs ++ [EvPushBack]). cbn. rewrite Ht, <- app_assoc.
  split; [reflexivity|]. rewrite forallb_app, Hevs. cbn. now rewrite He.
Qed.

Lemma Inv_world m n e :
  Inv P Q t0 m -> Inv P Q t0 (mkMachine (sp m) n e (trace m)).
Proof. intros H. exact H. Qed.

Lemma Inv_syscall c :
  P (EvSys c) = true -> stable (Inv P Q t0) (syscall env c).
Proof.
  intros Hc m H. unfold syscall. simpl.
  apply (Inv_events (m:=mkMachine (sp m) _ _ (trace m)) [EvSys c]);
    [simpl; now rewrite Hc | exact H].
Qed.

Lemma Inv_now : stable (Inv P Q t0) (now env).
Proof. intros m H. exact H. Qed.

Lemma Inv_try_new size : stable (Inv P Q t0) (try_new env size).
Proof. intros m H. exact H. Qed.

(** When the allocator never fails, what follows [new] only runs with its
    success. *)
Lemma Inv_try_new_succeeds A size (k : bool -> M Message A) :
  (forall n z, env_can_allocate env n z = true) ->
  stable (Inv P Q t0) (k true) ->
  stable (Inv P Q t0) (bind (try_new env size) k).
Proof.
  intros Halloc Hk m H. unfold bind, try_new. rewrite Halloc.
  apply Hk. exact H.
Qed.

End Invariant.

(** Unfolds the composite operations down to the primitive ones. *)
Ltac unfold_code :=
  cbv beta zeta delta
    [receiveNextMessage andthen stage_header stage_size stage_type stage_data
     stage_dispatch in_state update_current reset_current readInt32 readBytes
     recv send close error fatalError notify handleMessage sendMessage
     setSocketReceiveTimeout would_block checkConnectionState drain].

(** Follows the structure of the code, leaving to [side] what the invariant
    asks of each assignment and each event. *)
Ltac walk1 side :=
  lazymatch goal with
  | |- stable _ (bind _ _) => apply stable_bind; [|intro]
  | |- stable _ (ret _) => apply stable_ret
  | |- stable _ (@this _) => apply stable_this
  | |- stable _ (@get_errno _) => apply stable_get_errno
  | |- stable _ (now _) => apply Inv_now
  | |- stable _ (try_new _ _) => apply Inv_try_new
  | |- stable _ (deref _) => apply stable_deref; intro
  | |- stable _ (for_each _ _) => apply stable_for_each; intro
  | |- stable _ (send_all _ _) => apply stable_send_all; intro; unfold_code
  | |- stable _ (assign _) => apply Inv_assign; side
  | |- stable _ (@pop_front _) => apply Inv_pop_front; side
  | |- stable _ (push_back _) => apply Inv_push_back; side
  | |- stable _ (drain_loop _ _) => apply stable_drain_loop
  | |- stable _ (emit _) => apply Inv_emit; side
  | |- stable _ (syscall _ _) => apply Inv_syscall; side
  | |- stable _ (if ?b then _ else _) => destruct b
  | |- stable _ (match ?x with _ => _ end) => destruct x
  end.

Ltac walk side := unfold_code; repeat walk1 side.

(** Runs the code on a symbolic machine, splitting on whatever the
    environment or the object decides, innermost first. *)
Ltac inner x :=
  lazymatch x with
  | context [match ?y with _ => _ end] => inner y
  | _ => destruct x eqn:?
  end.

Ltac crunch env :=
  repeat (exec; cbv beta iota delta [WireMessage.state_eqb handleMessage];
          first [ rewrite (readInt32_run env)
                | rewrite error_run
                | rewrite fatalError_run
                | rewrite notify_run
                | match goal with
                  | |- context [match ?x with _ => _ end] => inner x
                  end ]);
  exec.

Ltac events :=
  repeat rewrite forallb_app; cbn [forallb];
  repeat rewrite forallb_map_ok by (intro; reflexivity);
  try reflexivity.

(** Closes a path: the invariant held at the start ([H]), the object still
    satisfies its part ([Qtac]), and the new events are allowed. *)
Ltac leaf H Qtac :=
  repeat rewrite <- app_assoc;
  first [ exact H
        | eapply Inv_step; [exact H | Qtac | events]
        | eapply Inv_step0; [exact H | Qtac] ].

(** Shows that the frame in progress is [dispatchable], from the invariant
    [H] at the start of the path. *)
Ltac frame_ok H :=
  let HQ := fresh "HQ" in
  pose proof (proj1 H) as HQ;
  unfold dispatchable in *;
  cbn [sp current_message WireMessage.getState WireMessage.setState
       WireMessage.setSize WireMessage.setSizeReceived WireMessage.setValid
       WireMessage.setType WireMessage.setData WireMessage.allocateData
       WireMessage.isComplete WireMessage.isValid WireMessage.getSize
       WireMessage.getSizeReceived] in *;
  try exact Logic.I;
  try (intros Habs; congruence);
  try exact HQ;
  try (intros _; split; [assumption | apply negb_false_iff; assumption]).

Section Properties.

Variable Message : Type.
Variable env : Env Message.

Implicit Types (m : Machine Message) (p : SocketPrivate Message).

Lemma int32_read_short r : short_read r = true -> int32_read r = None.
Proof.
  destruct r as [v data|e]; [|reflexivity]. unfold short_read, int32_read.
  intros H. apply negb_true_iff in H. now rewrite (ntohl_firstn_None _ H).
Qed.

Lemma int32_read_keepalive v data :
  firstn 4 data = keepalive -> int32_read (Ret v data) = Some 0.
Proof. unfold int32_read. intros ->. reflexivity. Qed.

(** ** The header stage *)

(** C5: a receive cycle at the header stage whose [recv] delivers four zero
    bytes completes, records that one four-byte read and nothing else (no
    entry of [handleMessage], no listener callback), leaves [last_error],
    the inbound queue and both states as they were, and leaves the frame
    awaiting its header. *)
Theorem C5_zero_header_is_keepalive m v data :
  WireMessage.getState (frame_in_progress (sp m))
    = WireMessage.MessageStateHeader ->
  env_os env (calls m) (sys_recv (socketId (sp m)) 4) = Ret v data ->
  firstn 4 data = keepalive ->
  exists m',
    receiveNextMessage env m = Done tt m' /\
    trace m' = trace m ++ [EvSys (sys_recv (socketId (sp m)) 4)] /\
    calls m' = S (calls m) /\
    last_error (sp m') = last_error (sp m) /\
    receiveQueue (sp m') = receiveQueue (sp m) /\
    state (sp m') = state (sp m) /\
    next_state (sp m') = next_state (sp m) /\
    exists w, current_message (sp m') = Some w /\
              WireMessage.getState w = WireMessage.MessageStateHeader.
Proof.
  intros Hst Hos Hzero. exists (after_idle_header env m).
  split.
  - apply header_stage_idle; [exact Hst|].
    rewrite Hos, (int32_read_keepalive _ _ Hzero). reflexivity.
  - unfold after_idle_header. destruct_machine m. exec.
    repeat split; try reflexivity.
    exists (frame_in_progress
              (mkSocketPrivate s ns addr po ls cm sq rq fd le lk)).
    split; [reflexivity | exact Hst].
Qed.

(** C9: at the header stage the result of [readInt32] is not looked at.
    When [recv] answers anything but four bytes, the cycle completes as it
    does on a keepalive: no error recorded, no callback, the frame still
    awaiting its header; the object and the events it leaves are the very
    ones it leaves in an environment [env'] whose [recv] delivers four
    zero bytes. *)
Theorem C9_failed_header_read_passes_for_keepalive
    (env' : Env Message) m v data :
  WireMessage.getState (frame_in_progress (sp m))
    = WireMessage.MessageStateHeader ->
  short_read (env_os env (calls m) (sys_recv (socketId (sp m)) 4)) = true ->
  env_os env' (calls m) (sys_recv (socketId (sp m)) 4) = Ret v data ->
  firstn 4 data = keepalive ->
  exists m1 m2,
    receiveNextMessage env m = Done tt m1 /\
    receiveNextMessage env' m = Done tt m2 /\
    sp m1 = sp m2 /\
    trace m1 = trace m2 /\
    trace m1 = trace m ++ [EvSys (sys_recv (socketId (sp m)) 4)] /\
    last_error (sp m1) = last_error (sp m) /\
    state (sp m1) = state (sp m) /\
    next_state (sp m1) = next_state (sp m) /\
    exists w, current_message (sp m1) = Some w /\
              WireMessage.getState w = WireMessage.MessageStateHeader.
Proof.
  intros Hst Hshort Hos Hzero.
  exists (after_idle_header env m).
  exists (mkMachine
            (set_current_message (Some (frame_in_progress (sp m))) (sp m))
            (S (calls m)) (errno m)
            (trace m ++ [EvSys (sys_recv (socketId (sp m)) 4)])).
  split; [|split].
  - apply header_stage_idle; [exact Hst|].
    now rewrite (int32_read_short _ Hshort).
  - replace (errno m) with
      (match env_os env' (calls m) (sys_recv (socketId (sp m)) 4) with
       | Fail e => e | Ret _ _ => errno m end) by now rewrite Hos.
    apply (header_stage_idle env'); [exact Hst|].
    rewrite Hos, (int32_read_keepalive _ _ Hzero). reflexivity.
  - unfold after_idle_header. destruct_machine m. exec.
    repeat split; try reflexivity.
    exists (frame_in_progress
              (mkSocketPrivate s ns addr po ls cm sq rq fd le lk)).
    split; [reflexivity | exact Hst].
Qed.

(** C6, as amended: a receive cycle at the header stage that reads four
    bytes whose value is not zero and whose signature is not 0x2BAD
    completes, records the non-fatal [ReceiveFailedError] as the last error,
    calls the error callback of every listener once, in registration order,
    and nothing else, leaves the frame awaiting its header and leaves both
    connection states as they were. *)
Theorem C6_wrong_signature_reported m header :
  WireMessage.getState (frame_in_progress (sp m))
    = WireMessage.MessageStateHeader ->
  int32_read (env_os env (calls m) (sys_recv (socketId (sp m)) 4))
    = Some header ->
  header <> 0 ->
  SIG header <> ARCUS_SIGNATURE ->
  let report :=
    mkError ErrorCode.ReceiveFailedError "Header mismatch" false in
  exists m',
    receiveNextMessage env m = Done tt m' /\
    trace m' = trace m ++ EvSys (sys_recv (socketId (sp m)) 4)
                 :: map (fun l => EvError l report) (listeners (sp m)) /\
    last_error (sp m') = report /\
    isFatalError report = false /\
    current_message (sp m') = Some (frame_in_progress (sp m)) /\
    state (sp m') = state (sp m) /\
    next_state (sp m') = next_state (sp m).
Proof.
  intros Hst Hread Hnz Hsig report.
  apply Z.eqb_neq in Hnz. apply Z.eqb_neq in Hsig.
  destruct_machine m. unfold receiveNextMessage.
  destruct cm as [w|]; exec; exec in Hst; exec in Hread;
    try rewrite Hst; cbv beta iota delta [WireMessage.state_eqb];
    rewrite readInt32_run; exec; rewrite Hread; exec;
    rewrite Hnz, Hsig; cbv beta iota delta [negb];
    rewrite error_run; exec;
    (eexists; split; [reflexivity|]); exec;
    rewrite <- app_assoc; repeat split; reflexivity.
Qed.

(** ** The transition check *)

(** The work of a tick, whatever the state, calls no state-changed
    callback. *)
Lemma run_case_no_state_change t0 s :
  stable (Inv (fun e => negb (is_state_changed e)) (fun _ => True) t0)
    (run_case env s).
Proof.
  destruct s; cbv beta iota delta [run_case];
    walk ltac:(solve [reflexivity | auto]).
Qed.

Lemma Inv_start (P : Event -> bool) (Q : SocketPrivate Message -> Prop) m :
  Q (sp m) -> Inv P Q (trace m) m.
Proof.
  intros HQ. split; [exact HQ|]. exists []. now rewrite app_nil_r.
Qed.

(** C8: the work of a tick calls no state-changed callback, and the
    transition check that ends the tick does this: when the pending state
    differs from the current one, the current state becomes the pending
    state and the state-changed callback of every listener is called once
    with the new state, in registration order, and nothing else happens;
    when they are equal, the tick ends as its work left things.  (A tick
    whose work stops at a null dereference never reaches the check.) *)
Theorem C8_transition_commit m :
  (exists evs,
     trace (machine_of (run_case env (state (sp m)) m)) = trace m ++ evs /\
     forallb (fun e => negb (is_state_changed e)) evs = true) /\
  match run_case env (state (sp m)) m with
  | Done _ m1 =>
      (next_state (sp m1) <> state (sp m1) ->
       tick env m =
         Done tt
           (mkMachine (set_state (next_state (sp m1)) (sp m1))
              (calls m1) (errno m1)
              (trace m1 ++ map (fun l => EvStateChanged l (next_state (sp m1)))
                               (listeners (sp m1))))) /\
      (next_state (sp m1) = state (sp m1) -> tick env m = Done tt m1)
  | NullDeref m1 => tick env m = NullDeref m1
  end.
Proof.
  split.
  - apply (run_case_no_state_change (state (sp m)) (m:=m)).
    now apply Inv_start.
  - unfold tick. cbv beta iota delta [bind this].
    destruct (run_case env (state (sp m)) m) as [[] m1|m1]; [|reflexivity].
    destruct_machine m1. unfold commit. exec.
    destruct (SocketStateFacts.eqb_spec ns s) as [->|Hne]; split; intros H;
      try congruence; cbv beta iota delta [negb].
    + reflexivity.
    + now rewrite notify_run.
Qed.

(** ** The Listening state *)

(** C2: in the Listening state, when [accept] answers -1, the tick
    completes; the fatal [AcceptFailedError] is the last error and the error
    callback of every listener is called with it; the pending state is
    nevertheless Connected, the transition check commits Connected and
    announces it, the loop condition of [run] holds, and [run] goes on
    with another tick from there. *)
Theorem C2_accept_failure_forces_connected m :
  state (sp m) = SocketState.Listening ->
  retval (env_os env (S (calls m)) (sys_accept (socketId (sp m)))) = -1 ->
  let report :=
    mkError ErrorCode.AcceptFailedError
      "Could not accept the incoming connection" true in
  exists m',
    tick env m = Done tt m' /\
    last_error (sp m') = report /\
    isFatalError report = true /\
    trace m' =
      trace m
      ++ [EvSys (sys_listen (socketId (sp m)) 1);
          EvSys (sys_accept (socketId (sp m)))]
      ++ map (fun l => EvError l report) (listeners (sp m))
      ++ [EvSys (sys_close (socketId (sp m)));
          EvSys (sys_setsockopt_rcvtimeo (-1) 0 250000)]
      ++ map (fun l => EvStateChanged l SocketState.Connected)
           (listeners (sp m)) /\
    next_state (sp m') = SocketState.Connected /\
    state (sp m') = SocketState.Connected /\
    running (sp m') = true /\
    forall fuel,
      run env (S (S fuel)) m
      = bind (tick env) (fun _ => run env fuel) m'.
Proof.
  intros Hst Hacc report. destruct_machine m. exec in Hst. exec in Hacc.
  subst s.
  assert (Htick : exists m', tick env
    (mkMachine (mkSocketPrivate SocketState.Listening ns addr po ls cm sq rq
                  fd le lk) c e t) = Done tt m' /\
    sp m' = mkSocketPrivate SocketState.Connected SocketState.Connected
              addr po ls None sq rq (-1) report lk /\
    trace m' =
      t ++ [EvSys (sys_listen fd 1); EvSys (sys_accept fd)]
        ++ map (fun l => EvError l report) ls
        ++ [EvSys (sys_close fd);
            EvSys (sys_setsockopt_rcvtimeo (-1) 0 250000)]
        ++ map (fun l => EvStateChanged l SocketState.Connected) ls).
  { exec. rewrite Hacc. change (-1 =? -1) with true. exec.
    rewrite fatalError_run. exec.
    change (250 * 1000) with 250000.
    cbv beta iota delta [SocketState.eqb negb].
    rewrite notify_run. exec.
    eexists; split; [reflexivity|]. split; [reflexivity|]. exec.
    repeat rewrite <- app_assoc. reflexivity. }
  destruct Htick as (m' & Htick & Hsp & Htrace).
  exists m'. split; [exact Htick|].
  rewrite Hsp, Htrace. cbn [sp trace socketId listeners last_error
                            next_state state].
  repeat split; try reflexivity.
  intros fuel. rewrite run_step by reflexivity.
  unfold bind at 1. rewrite Htick.
  apply run_step. now rewrite Hsp.
Qed.

(** ** The keepalive check *)

(** The whole milliseconds in a span of clock ticks exceed [keepAliveRate]
    exactly when the span is at least [keepAliveRate + 1] milliseconds. *)
Lemma diff_count_due t last :
  0 < env_ticks_per_ms env ->
  (keepAliveRate + 1) * env_ticks_per_ms env <= t - last ->
  diff_count env t last > keepAliveRate.
Proof.
  intros Hticks Hspan. unfold diff_count, keepAliveRate in *.
  rewrite Z.quot_div_nonneg by lia.
  assert (H : 501 <= (t - last) / env_ticks_per_ms env)
    by (apply Z.div_le_lower_bound; lia).
  lia.
Qed.

(** C4: in the Connected state, when the sends and the receive cycle of the
    tick complete without the pending state becoming Error and the clock
    then reads at least [keepAliveRate + 1] milliseconds (501 ms, in ticks
    of the clock) past [lastKeepAliveSent], the work of the tick ends with
    one [send] of four zero bytes and [lastKeepAliveSent] becomes that
    reading of the clock.  When that [send] answers -1, the non-fatal
    [ConnectionResetError] is recorded and reported and the pending state
    becomes Closing; otherwise nothing else changes. *)
Theorem C4_keepalive_after_interval m m1 :
  state (sp m) = SocketState.Connected ->
  bind (drain (Message:=Message))
    (fun messagesToSend =>
       bind (send_all env messagesToSend)
         (fun _ => receiveNextMessage env)) m = Done tt m1 ->
  next_state (sp m1) <> SocketState.Error ->
  0 < env_ticks_per_ms env ->
  (keepAliveRate + 1) * env_ticks_per_ms env
    <= env_system_clock_now env (calls m1) - lastKeepAliveSent (sp m1) ->
  let t := env_system_clock_now env (calls m1) in
  let probe := sys_send (socketId (sp m1)) keepalive in
  let answer := env_os env (S (calls m1)) probe in
  let report :=
    mkError ErrorCode.ConnectionResetError "Connection reset by peer" false in
  exists m2 evs,
    run_case env (state (sp m)) m = Done tt m2 /\
    trace m2 = trace m1 ++ evs /\
    sends_of evs = [keepalive] /\
    lastKeepAliveSent (sp m2) = t /\
    (retval answer <> -1 ->
       evs = [EvSys probe] /\
       sp m2 = set_lastKeepAliveSent t (sp m1)) /\
    (retval answer = -1 ->
       evs = EvSys probe :: map (fun l => EvError l report)
                                (listeners (sp m1)) /\
       last_error (sp m2) = report /\
       isFatalError report = false /\
       next_state (sp m2) = SocketState.Closing /\
       sp m2 = set_lastKeepAliveSent t
                 (set_next_state SocketState.Closing
                    (set_last_error report (sp m1)))).
Proof.
  intros Hst Hwork Hns Hticks Hspan t probe answer report.
  pose proof (diff_count_due _ _ Hticks Hspan) as Hdiff. clear Hticks Hspan.
  rewrite Hst. cbv beta iota delta [run_case].
  unfold bind in Hwork |- * at 1 2 3.
  destruct (drain m) as [messagesToSend ma|ma]; [|discriminate].
  destruct (send_all env messagesToSend ma) as [[] mb|mb]; [|discriminate].
  rewrite Hwork. subst t probe answer.
  destruct_machine m1. exec in Hns. exec in Hdiff. exec.
  destruct (SocketStateFacts.eqb_spec ns SocketState.Error) as [|_];
    [contradiction|].
  cbv beta iota delta [negb]. exec.
  apply Z.gt_lt, Z.gtb_lt in Hdiff. rewrite Hdiff. exec.
  destruct (Z.eqb_spec
              (retval (env_os env (S c) (sys_send fd keepalive))) (-1))
    as [Hret|Hret]; exec; [rewrite error_run; exec|];
    eexists; eexists; (split; [reflexivity|]).
  - split; [symmetry; apply app_assoc|].
    split; [|split; [reflexivity|split; [congruence|]]].
    + cbn [sends_of app]. now rewrite sends_of_errors.
    + intros _. repeat split; reflexivity.
  - split; [reflexivity|].
    split; [reflexivity|]. split; [reflexivity|].
    split; [|congruence]. intros _. split; reflexivity.
Qed.

(** ** The outbound queue *)

(** A receive cycle sends nothing, leaves the outbound queue and its lock
    alone, and leaves an empty outbound queue empty. *)
Lemma receive_no_send t0 :
  stable (Inv (fun e => negb (is_send e) && negb (on_send_queue e))
            (fun p => sendQueue p = []) t0)
    (receiveNextMessage env).
Proof. walk ltac:(solve [reflexivity | intros p H; exact H]). Qed.

(** What the transition check adds to the events holds no [send] and
    nothing on the outbound queue. *)
Lemma commit_sends m :
  exists m' evs,
    commit m = Done tt m' /\
    sendQueue (sp m') = sendQueue (sp m) /\
    trace m' = trace m ++ evs /\
    forallb (fun e => negb (on_send_queue e)) evs = true /\
    sends_of evs = [].
Proof.
  rewrite commit_run. destruct_machine m. exec.
  destruct (SocketState.eqb ns s).
  - eexists; exists []. split; [reflexivity|]. now rewrite app_nil_r.
  - eexists; eexists. split; [reflexivity|]. exec.
    split; [reflexivity|]. split; [reflexivity|].
    split; [apply (off_send_queue_map _ ls); reflexivity|].
    apply sends_of_state_changed.
Qed.

(** C7: a tick in the Connected state takes the lock of the outbound
    queue, pops every queued message while it holds the lock, releases the
    lock, and then sends the frames of the messages that were queued, each
    once, in the order of the queue: the events of the tick begin with the
    lock, one pop per queued message, the unlock, and the four [send]s of
    every queued message in turn; what follows neither locks, unlocks nor
    changes the outbound queue and holds no [send] other than at most the
    one keepalive, and the queue is empty when the tick ends. *)
Theorem C7_outbound_queue_sent_in_order m :
  state (sp m) = SocketState.Connected ->
  let m' := machine_of (tick env m) in
  sendQueue (sp m') = [] /\
  exists rest,
    trace m' =
      trace m
      ++ EvLock sendQueueMutex
         :: map (fun _ => EvPopFront) (sendQueue (sp m))
      ++ EvUnlock sendQueueMutex
         :: flat_map (frame_events env (socketId (sp m))) (sendQueue (sp m))
      ++ rest /\
    forallb (fun e => negb (on_send_queue e)) rest = true /\
    (sends_of rest = [] \/ sends_of rest = [keepalive]).
Proof.
  intros Hst. unfold tick. cbv beta iota delta [bind this]. rewrite Hst.
  cbv beta iota delta [run_case bind]. rewrite drain_run.
  set (locked := EvLock sendQueueMutex
                   :: map (fun _ => EvPopFront) (sendQueue (sp m))
                   ++ [EvUnlock sendQueueMutex]).
  destruct (send_all_run env (sendQueue (sp m))
              (mkMachine (set_sendQueue [] (sp m)) (calls m) (errno m)
                 (trace m ++ locked)))
    as (c1 & e1 & ->).
  cbn [sp trace].
  replace (socketId (set_sendQueue [] (sp m))) with (socketId (sp m))
    by (destruct m as [[] ? ? ?]; reflexivity).
  set (mb := mkMachine _ c1 e1 _).
  assert (Hmb : Inv (fun e => negb (is_send e) && negb (on_send_queue e))
                  (fun p : SocketPrivate Message => sendQueue p = [])
                  (trace mb) mb).
  { apply Inv_start. destruct m as [[] ? ? ?]; reflexivity. }
  apply receive_no_send in Hmb.
  assert (Hfin : forall rest,
    trace mb ++ rest = trace m
      ++ EvLock sendQueueMutex
         :: map (fun _ => EvPopFront) (sendQueue (sp m))
      ++ EvUnlock sendQueueMutex
         :: flat_map (frame_events env (socketId (sp m))) (sendQueue (sp m))
      ++ rest).
  { intros rest. unfold mb, locked. cbn [trace].
    repeat (rewrite <- app_assoc; cbn [app]). reflexivity. }
  clearbody mb.
  destruct (receiveNextMessage env mb) as [[] mc|mc];
    destruct Hmb as [Hq (evs1 & Ht1 & Hs1)];
    apply forallb_both in Hs1; destruct Hs1 as [Hs1 Ho1];
    apply sends_of_none in Hs1; cbn [machine_of] in *.
  2:{ split; [exact Hq|]. exists evs1. rewrite Ht1, Hfin. auto. }
  unfold this. cbv beta iota.
  destruct (negb (SocketState.eqb (next_state (sp mc)) SocketState.Error));
    cbv beta iota.
  - destruct (checkConnectionState_sends env mc)
      as (md & evs2 & -> & Hq2 & Ht2 & Ho2 & Hs2).
    destruct (commit_sends md) as (me & evs3 & -> & Hq3 & Ht3 & Ho3 & Hs3).
    cbn [machine_of]. split; [congruence|].
    exists (evs1 ++ evs2 ++ evs3).
    rewrite Ht3, Ht2, Ht1, <- Hfin. repeat rewrite <- app_assoc.
    split; [reflexivity|].
    split; [now rewrite !forallb_app, Ho1, Ho2, Ho3|].
    repeat rewrite sends_of_app. rewrite Hs1, Hs3, app_nil_r. exact Hs2.
  - unfold ret.
    destruct (commit_sends mc) as (me & evs3 & -> & Hq3 & Ht3 & Ho3 & Hs3).
    cbn [machine_of]. split; [congruence|].
    exists (evs1 ++ evs3).
    rewrite Ht3, Ht1, <- Hfin. repeat rewrite <- app_assoc.
    split; [reflexivity|].
    split; [now rewrite !forallb_app, Ho1, Ho3|]. left.
    rewrite sends_of_app, Hs1, Hs3. reflexivity.
Qed.

(** ** The size stage *)

(** Without a failing allocation, a receive cycle leaves the pending state
    alone, reports only non-fatal errors, and leaves the last error as it
    was or non-fatal. *)
Lemma receive_not_fatal ns0 le0 t0 :
  (forall n z, env_can_allocate env n z = true) ->
  stable
    (Inv (fun e => negb (is_fatal_report e))
       (fun p => next_state p = ns0 /\
                 (last_error p = le0 \/
                  isFatalError (last_error p) = false))
       t0)
    (receiveNextMessage env).
Proof.
  intros Halloc. unfold_code.
  repeat first
    [ apply Inv_try_new_succeeds; [exact Halloc | cbv beta iota]
    | walk1 ltac:(solve [ reflexivity
                        | intros p H; exact H
                        | intros p [H _]; split;
                          [exact H | right; reflexivity] ]) ].
Qed.


(** C3, as amended: at the size stage, a declared length that is negative
    as an [int32_t] (a wire value of 2^31 or more) ends the cycle with the
    non-fatal [ReceiveFailedError] recorded and reported, the frame still at
    the size stage and both connection states as they were; any other
    declared length, however large, is accepted by the size stage without
    error, and the frame moves on to the type stage with that size; and a
    receive cycle in which no allocation fails neither changes the pending
    state nor records or reports a fatal error. *)
Theorem C3_size_stage_errors m :
  (forall w size,
     current_message (sp m) = Some w ->
     WireMessage.getState w = WireMessage.MessageStateSize ->
     int32_read (env_os env (calls m) (sys_recv (socketId (sp m)) 4))
       = Some size ->
     size < 0 ->
     let report :=
       mkError ErrorCode.ReceiveFailedError "Size invalid" false in
     exists m',
       receiveNextMessage env m = Done tt m' /\
       trace m' = trace m ++ EvSys (sys_recv (socketId (sp m)) 4)
                    :: map (fun l => EvError l report) (listeners (sp m)) /\
       last_error (sp m') = report /\
       isFatalError report = false /\
       current_message (sp m') = Some w /\
       state (sp m') = state (sp m) /\
       next_state (sp m') = next_state (sp m)) /\
  (forall w size,
     current_message (sp m) = Some w ->
     WireMessage.getState w = WireMessage.MessageStateSize ->
     int32_read (env_os env (calls m) (sys_recv (socketId (sp m)) 4))
       = Some size ->
     0 <= size ->
     exists m',
       stage_size env m = Done Next m' /\
       current_message (sp m') =
         Some (WireMessage.setState WireMessage.MessageStateType
                 (WireMessage.setSize size w)) /\
       trace m' = trace m ++ [EvSys (sys_recv (socketId (sp m)) 4)] /\
       last_error (sp m') = last_error (sp m) /\
       state (sp m') = state (sp m) /\
       next_state (sp m') = next_state (sp m)) /\
  ((forall n z, env_can_allocate env n z = true) ->
   let m' := machine_of (receiveNextMessage env m) in
   next_state (sp m') = next_state (sp m) /\
   (last_error (sp m') = last_error (sp m) \/
    isFatalError (last_error (sp m')) = false) /\
   exists evs,
     trace m' = trace m ++ evs /\
     forallb (fun e => negb (is_fatal_report e)) evs = true).
Proof.
  split; [|split].
  - intros w size Hcm Hst Hread Hneg report. destruct_machine m.
    exec in Hcm. exec in Hread. subst cm.
    apply Z.ltb_lt in Hneg.
    destruct w as [st sz rc vl ty dt]. cbn in Hst. subst st.
    unfold receiveNextMessage. exec_frame.
    rewrite readInt32_run. exec. rewrite Hread. exec.
    change (negb (0 =? 0)) with false. exec. rewrite Hneg. exec.
    rewrite error_run. exec.
    eexists. split; [reflexivity|]. exec. rewrite <- app_assoc.
    repeat split; reflexivity.
  - intros w size Hcm Hst Hread Hpos. destruct_machine m.
    exec in Hcm. exec in Hread. subst cm.
    apply Z.ltb_ge in Hpos.
    destruct w as [st sz rc vl ty dt]. cbn in Hst. subst st.
    exec_frame.
    rewrite readInt32_run. exec. rewrite Hread. exec.
    change (negb (0 =? 0)) with false. exec. rewrite Hpos. exec_frame.
    eexists. split; [reflexivity|]. exec. repeat split; reflexivity.
  - intros Halloc m'.
    destruct (@receive_not_fatal (next_state (sp m)) (last_error (sp m))
                (trace m) Halloc m) as [[Hns Hle] Hevs].
    + apply Inv_start. split; [reflexivity | now left].
    + repeat split; assumption.
Qed.

(** ** Dispatch of complete, valid frames only *)

Lemma stage_header_whole_frames t0 :
  stable (whole_frames t0) (stage_header env).
Proof.
  intros m H. destruct_machine m. unfold whole_frames in *.
  crunch env; leaf H ltac:(frame_ok H).
Qed.

Lemma stage_size_whole_frames t0 :
  stable (whole_frames t0) (stage_size env).
Proof.
  intros m H. destruct_machine m. unfold whole_frames in *.
  crunch env; leaf H ltac:(frame_ok H).
Qed.

Lemma stage_type_whole_frames t0 :
  stable (whole_frames t0) (stage_type env).
Proof.
  intros m H. destruct_machine m. unfold whole_frames in *.
  crunch env; leaf H ltac:(frame_ok H).
Qed.

Lemma stage_data_whole_frames t0 :
  stable (whole_frames t0) (stage_data env).
Proof.
  intros m H. destruct_machine m. unfold whole_frames in *.
  crunch env; leaf H ltac:(frame_ok H).
Qed.

Lemma stage_dispatch_whole_frames t0 :
  stable (whole_frames t0) (stage_dispatch env).
Proof.
  intros m H. destruct_machine m. unfold whole_frames in *.
  crunch env; leaf H ltac:(frame_ok H);
    match goal with
    | Hst : WireMessage.getState ?w = WireMessage.MessageStateDispatch |- _ =>
        destruct (proj1 H Hst) as [Hc Hv];
        cbn [is_bad_dispatch negb andb]; rewrite Hc, Hv; reflexivity
    end.
Qed.

Lemma receive_whole_frames t0 :
  stable (whole_frames t0) (receiveNextMessage env).
Proof.
  unfold receiveNextMessage.
  apply stable_bind; [apply stable_this | intros p].
  apply stable_bind.
  - destruct (current_message p); [apply stable_ret|].
    apply Inv_assign. intros q _. unfold dispatchable. cbn. discriminate.
  - intros _.
    apply stable_andthen; [apply stage_header_whole_frames|].
    apply stable_andthen; [apply stage_size_whole_frames|].
    apply stable_andthen; [apply stage_type_whole_frames|].
    apply stable_andthen; [apply stage_data_whole_frames|].
    apply stable_andthen; [apply stage_dispatch_whole_frames|].
    apply stable_ret.
Qed.

Lemma run_case_whole_frames t0 s :
  stable (whole_frames t0) (run_case env s).
Proof.
  destruct s; cbv beta iota delta [run_case]; unfold whole_frames;
    try solve [walk ltac:(solve [ reflexivity
                                | intros p H; exact H
                                | intros p H; exact Logic.I ])].
  apply stable_bind;
    [walk ltac:(solve [reflexivity | intros p H; exact H]) | intro].
  apply stable_bind;
    [walk ltac:(solve [reflexivity | intros p H; exact H]) | intro].
  apply stable_bind; [apply receive_whole_frames | intro].
  walk ltac:(solve [reflexivity | intros p H; exact H]).
Qed.

Lemma tick_whole_frames t0 : stable (whole_frames t0) (tick env).
Proof.
  unfold tick. apply stable_bind; [apply stable_this | intros p].
  apply stable_bind; [apply run_case_whole_frames | intros _].
  unfold commit, whole_frames.
  walk ltac:(solve [reflexivity | intros q H; exact H]).
Qed.

Lemma run_whole_frames t0 fuel : stable (whole_frames t0) (run env fuel).
Proof.
  induction fuel as [|fuel IH]; cbn [run];
    (apply stable_bind; [apply stable_this | intros p]);
    destruct (running p); try apply stable_ret.
  apply stable_bind; [apply tick_whole_frames | intros _; exact IH].
Qed.

Lemma length_not_minus_one (l : list byte) :
  (Z.of_nat (List.length l) =? -1) = false.
Proof. apply Z.eqb_neq. lia. Qed.

(** A payload read into an invalid frame that does not complete it:
    the bytes are stored and counted and the frame stays. *)
Lemma invalid_frame_accumulates m w v data :
  current_message (sp m) = Some w ->
  WireMessage.getState w = WireMessage.MessageStateData ->
  WireMessage.isValid w = false ->
  env_os env (calls m)
    (sys_recv (socketId (sp m)) (WireMessage.getRemainingSize w))
    = Ret v data ->
  WireMessage.isComplete (accumulate w (payload_read w data)) = false ->
  receiveNextMessage env m =
    Done tt
      (mkMachine
         (set_current_message
            (Some (accumulate w (payload_read w data))) (sp m))
         (S (calls m)) (errno m)
         (trace m ++ [EvSys (sys_recv (socketId (sp m))
                               (WireMessage.getRemainingSize w))])).
Proof.
  intros Hcm Hst Hval Hos Hcomplete. destruct_machine m.
  exec in Hcm. exec in Hos. subst cm.
  unfold accumulate, payload_read in *.
  destruct w as [st sz rc vl ty dt].
  cbn [WireMessage.getState WireMessage.isValid] in Hst, Hval. subst st vl.
  frame_fields in Hos. frame_fields in Hcomplete.
  unfold receiveNextMessage. exec_frame. rewrite Hos. exec_frame.
  repeat (rewrite length_not_minus_one; exec_frame).
  rewrite Hcomplete. exec_frame. reflexivity.
Qed.

(** A payload read that completes an invalid frame: the frame is dropped,
    with no entry of [handleMessage] and no callback. *)
Lemma invalid_frame_discarded m w v data :
  current_message (sp m) = Some w ->
  WireMessage.getState w = WireMessage.MessageStateData ->
  WireMessage.isValid w = false ->
  env_os env (calls m)
    (sys_recv (socketId (sp m)) (WireMessage.getRemainingSize w))
    = Ret v data ->
  WireMessage.isComplete (accumulate w (payload_read w data)) = true ->
  receiveNextMessage env m =
    Done tt
      (mkMachine (set_current_message None (sp m))
         (S (calls m)) (errno m)
         (trace m ++ [EvSys (sys_recv (socketId (sp m))
                               (WireMessage.getRemainingSize w))])).
Proof.
  intros Hcm Hst Hval Hos Hcomplete. destruct_machine m.
  exec in Hcm. exec in Hos. subst cm.
  unfold accumulate, payload_read in *.
  destruct w as [st sz rc vl ty dt].
  cbn [WireMessage.getState WireMessage.isValid] in Hst, Hval. subst st vl.
  frame_fields in Hos. frame_fields in Hcomplete.
  unfold receiveNextMessage. exec_frame. rewrite Hos. exec_frame.
  repeat (rewrite length_not_minus_one; exec_frame).
  rewrite Hcomplete. exec_frame. reflexivity.
Qed.

(** A failed read of the type tag that is not taken for would-block marks
    the frame invalid; the payload buffer is allocated all the same and the
    frame moves on to the payload stage. *)
Lemma type_stage_invalidates m w :
  current_message (sp m) = Some w ->
  WireMessage.getState w = WireMessage.MessageStateType ->
  short_read (env_os env (calls m) (sys_recv (socketId (sp m)) 4)) = true ->
  retried env (errno_after env m (sys_recv (socketId (sp m)) 4)) = false ->
  env_can_allocate env (S (calls m)) (WireMessage.getSize w) = true ->
  stage_type env m =
    Done Next
      (mkMachine
         (set_current_message
            (Some (WireMessage.mk WireMessage.MessageStateData
                     (WireMessage.getSize w) (WireMessage.getSizeReceived w)
                     false 0
                     (repeat x00 (Z.to_nat (WireMessage.getSize w)))))
            (sp m))
         (S (S (calls m)))
         (errno_after env m (sys_recv (socketId (sp m)) 4))
         (trace m ++ [EvSys (sys_recv (socketId (sp m)) 4)])).
Proof.
  intros Hcm Hst Hshort Hretry Halloc. destruct_machine m.
  unfold retried, errno_after in *.
  exec in Hcm. exec in Hshort. exec in Hretry. exec in Halloc. subst cm.
  apply int32_read_short in Hshort.
  destruct w as [st sz rc vl ty dt].
  cbn [WireMessage.getState] in Hst. subst st. frame_fields in Halloc.
  exec_frame. rewrite readInt32_run. exec. rewrite Hshort. exec.
  change (negb (-1 =? 0)) with true. exec.
  rewrite Hretry. exec_frame. rewrite Halloc. exec_frame.
  reflexivity.
Qed.

(** C10: a frame whose type read failed other than by would-block is marked
    invalid, still gets its payload buffer of the declared size and moves to
    the payload stage; every later payload read into it is stored and
    counted, and the cycle that completes it drops it with no entry of
    [handleMessage], no callback and no error recorded.  And from any
    machine whose frame in progress is not awaiting dispatch incomplete or
    invalid (no frame, in particular), every entry of [handleMessage]
    during a receive cycle, and during any number of iterations of [run],
    is with a frame that is complete and valid. *)
Theorem C10_invalid_frames_never_dispatched m :
  (forall w,
     current_message (sp m) = Some w ->
     WireMessage.getState w = WireMessage.MessageStateType ->
     short_read (env_os env (calls m) (sys_recv (socketId (sp m)) 4))
       = true ->
     retried env (errno_after env m (sys_recv (socketId (sp m)) 4))
       = false ->
     env_can_allocate env (S (calls m)) (WireMessage.getSize w) = true ->
     exists m' w',
       stage_type env m = Done Next m' /\
       current_message (sp m') = Some w' /\
       WireMessage.isValid w' = false /\
       WireMessage.getState w' = WireMessage.MessageStateData /\
       WireMessage.getSize w' = WireMessage.getSize w /\
       WireMessage.getData w'
         = repeat x00 (Z.to_nat (WireMessage.getSize w)) /\
       trace m' = trace m ++ [EvSys (sys_recv (socketId (sp m)) 4)] /\
       last_error (sp m') = last_error (sp m)) /\
  (forall w v data,
     current_message (sp m) = Some w ->
     WireMessage.getState w = WireMessage.MessageStateData ->
     WireMessage.isValid w = false ->
     env_os env (calls m)
       (sys_recv (socketId (sp m)) (WireMessage.getRemainingSize w))
       = Ret v data ->
     let w' := accumulate w (payload_read w data) in
     exists m',
       receiveNextMessage env m = Done tt m' /\
       trace m' = trace m ++ [EvSys (sys_recv (socketId (sp m))
                                       (WireMessage.getRemainingSize w))] /\
       last_error (sp m') = last_error (sp m) /\
       receiveQueue (sp m') = receiveQueue (sp m) /\
       (WireMessage.isComplete w' = false ->
          current_message (sp m') = Some w' /\
          WireMessage.isValid w' = false /\
          WireMessage.getState w' = WireMessage.MessageStateData /\
          WireMessage.getSizeReceived w'
            = u32 (WireMessage.getSizeReceived w
                   + Z.of_nat (List.length (payload_read w data)))) /\
       (WireMessage.isComplete w' = true ->
          current_message (sp m') = None)) /\
  (dispatchable (sp m) ->
   (exists evs,
      trace (machine_of (receiveNextMessage env m)) = trace m ++ evs /\
      forallb (fun e => negb (is_bad_dispatch e)) evs = true) /\
   (forall fuel, exists evs,
      trace (machine_of (run env fuel m)) = trace m ++ evs /\
      forallb (fun e => negb (is_bad_dispatch e)) evs = true)).
Proof.
  split; [|split].
  - intros w Hcm Hst Hshort Hretry Halloc.
    eexists; eexists. split.
    + apply (type_stage_invalidates _ Hcm Hst Hshort Hretry Halloc).
    + destruct m as [[] ? ? ?]. cbn. repeat split; reflexivity.
  - intros w v data Hcm Hst Hval Hos w'.
    destruct (WireMessage.isComplete w') eqn:Hcomplete.
    + eexists. split.
      * apply (invalid_frame_discarded _ Hcm Hst Hval Hos Hcomplete).
      * destruct m as [[] ? ? ?]. cbn.
        repeat split; try reflexivity; discriminate.
    + eexists. split.
      * apply (invalid_frame_accumulates _ Hcm Hst Hval Hos Hcomplete).
      * destruct m as [[] ? ? ?]. cbn.
        repeat split; try reflexivity; try discriminate.
        all: destruct w; cbn in *; assumption.
  - intros Hd. split.
    + apply (@receive_whole_frames (trace m) m). now apply Inv_start.
    + intros fuel.
      apply (@run_whole_frames (trace m) fuel m). now apply Inv_start.
Qed.

(** ** Fatal errors *)

(** A tick in the Connected state whose sends and receive cycle leave the
    pending state Error skips the keepalive check, commits Error and
    announces it; [run] then stops without another tick. *)
Lemma fatal_in_connected_stops_run m m1 :
  state (sp m) = SocketState.Connected ->
  bind (drain (Message:=Message))
    (fun messagesToSend =>
       bind (send_all env messagesToSend)
         (fun _ => receiveNextMessage env)) m = Done tt m1 ->
  next_state (sp m1) = SocketState.Error ->
  state (sp m1) = SocketState.Connected ->
  exists m2,
    tick env m = Done tt m2 /\
    state (sp m2) = SocketState.Error /\
    trace m2 = trace m1 ++ map (fun l => EvStateChanged l SocketState.Error)
                             (listeners (sp m1)) /\
    forall fuel, run env fuel m2 = Done true m2.
Proof.
  intros Hst Hwork Hns Hs1.
  unfold tick. cbv beta iota delta [bind this] in Hwork |- *.
  rewrite Hst. cbv beta iota delta [run_case bind this].
  destruct (drain m) as [messagesToSend ma|ma]; [|discriminate].
  destruct (send_all env messagesToSend ma) as [[] mb|mb]; [|discriminate].
  rewrite Hwork, Hns. cbv beta iota delta [SocketState.eqb negb ret].
  rewrite commit_run, Hns, Hs1. cbv beta iota delta [SocketState.eqb].
  eexists. split; [reflexivity|]. cbn [sp trace].
  split; [now destruct m1 as [[] ? ? ?]|]. split; [reflexivity|].
  intros fuel. apply run_stop. now destruct m1 as [[] ? ? ?].
Qed.

End Properties.

(** ** Concrete runs *)

Section Runs.
Import Demo.

(** C5 on a socket with no frame in progress whose peer sends a keepalive. *)
Lemma C5_witness :
  exists m',
    receiveNextMessage sends_keepalive (socket SocketState.Connected None [])
      = Done tt m' /\
    trace m' = [EvSys (sys_recv 5 4)].
Proof.
  destruct (C5_zero_header_is_keepalive sends_keepalive
              (socket SocketState.Connected None []) (v:=4) (data:=keepalive))
    as (m' & Hrun & Htrace & _); try reflexivity.
  exists m'. split; [exact Hrun | exact Htrace].
Defined.

(** C9 on a header read that delivers two bytes only. *)
Lemma C9_witness :
  exists m1 m2,
    receiveNextMessage sends_two_bytes
      (socket SocketState.Connected None []) = Done tt m1 /\
    receiveNextMessage sends_keepalive
      (socket SocketState.Connected None []) = Done tt m2 /\
    sp m1 = sp m2 /\ trace m1 = trace m2.
Proof.
  destruct (C9_failed_header_read_passes_for_keepalive sends_two_bytes
              sends_keepalive (socket SocketState.Connected None [])
              (v:=4) (data:=keepalive))
    as (m1 & m2 & H1 & H2 & Hsp & Htrace & _); try reflexivity.
  exists m1, m2. repeat split; assumption.
Defined.

(** At an all-zero header the signature is not 0x2BAD, and yet no error
    callback is called and no error is recorded. *)
Lemma C6_counterexample :
  let m := socket SocketState.Connected None [] in
  let m' := machine_of (receiveNextMessage sends_keepalive m) in
  int32_read (env_os sends_keepalive 0 (sys_recv 5 4)) = Some 0 /\
  SIG 0 <> ARCUS_SIGNATURE /\
  listeners (sp m) = [1%nat; 2%nat] /\
  trace m' = [EvSys (sys_recv 5 4)] /\
  ~ (exists l report, In (EvError l report) (trace m')) /\
  last_error (sp m') = last_error (sp m).
Proof.
  cbv zeta. repeat split; try reflexivity.
  - vm_compute. discriminate.
  - intros (l & report & [H|[]]). discriminate H.
Qed.

(** C6 on the header 0xdeadbeef, with two listeners. *)
Lemma C6_witness :
  exists m',
    receiveNextMessage sends_wrong_signature
      (socket SocketState.Connected None []) = Done tt m' /\
    trace m' =
      [EvSys (sys_recv 5 4);
       EvError 1%nat
         (mkError ErrorCode.ReceiveFailedError "Header mismatch" false);
       EvError 2%nat
         (mkError ErrorCode.ReceiveFailedError "Header mismatch" false)].
Proof.
  destruct (C6_wrong_signature_reported sends_wrong_signature
              (socket SocketState.Connected None [])
              (header:=to_int32 0xdeadbeef))
    as (m' & Hrun & Htrace & _);
    try reflexivity; try (vm_compute; discriminate).
  exists m'. split; [exact Hrun | exact Htrace].
Defined.

(** A declared length of 500 MiB + 1, above the limit the class itself
    gives the parser, is neither negative nor refused at the size stage:
    the cycle records and reports no error and the frame moves on with
    that size. *)
Lemma C3_counterexample :
  let m := socket SocketState.Connected
             (Some (frame_at WireMessage.MessageStateSize)) [] in
  let m' := machine_of (receiveNextMessage sends_oversized_size m) in
  int32_read (env_os sends_oversized_size 0 (sys_recv 5 4))
    = Some 524288001 /\
  524288001 > total_bytes_limit /\
  listeners (sp m) = [1%nat; 2%nat] /\
  ~ (exists l report, In (EvError l report) (trace m')) /\
  last_error (sp m') = last_error (sp m) /\
  current_message (sp m') =
    Some (WireMessage.mk WireMessage.MessageStateType 524288001 0 true 0 []).
Proof.
  cbv zeta. repeat split; try reflexivity.
  intros (l & report & [H|[H|[]]]); discriminate H.
Qed.

(** C3 on the declared length 0xffffffff, which is -1 as an [int32_t]. *)
Lemma C3_witness :
  exists m',
    receiveNextMessage sends_negative_size
      (socket SocketState.Connected
         (Some (frame_at WireMessage.MessageStateSize)) []) = Done tt m' /\
    last_error (sp m')
      = mkError ErrorCode.ReceiveFailedError "Size invalid" false /\
    next_state (sp m') = SocketState.Connected.
Proof.
  destruct (C3_size_stage_errors sends_negative_size
              (socket SocketState.Connected
                 (Some (frame_at WireMessage.MessageStateSize)) []))
    as [Hneg _].
  destruct (Hneg (frame_at WireMessage.MessageStateSize) (-1))
    as (m' & Hrun & _ & Herr & _ & _ & _ & Hns);
    try reflexivity.
  exists m'. repeat split; assumption.
Defined.

(** C2 on a listening socket whose [accept] fails. *)
Lemma C2_witness :
  exists m',
    tick refuses_accept (socket SocketState.Listening None []) = Done tt m' /\
    isFatalError (last_error (sp m')) = true /\
    state (sp m') = SocketState.Connected /\
    running (sp m') = true.
Proof.
  destruct (C2_accept_failure_forces_connected refuses_accept
              (socket SocketState.Listening None []))
    as (m' & Hrun & Herr & _ & _ & _ & Hst & Hrunning & _);
    try reflexivity.
  exists m'. rewrite Herr. repeat split; assumption.
Defined.

(** 500.999999 ms after the last keepalive, more than 500 ms have elapsed
    and the tick has met no error, and yet it sends nothing and
    [lastKeepAliveSent] stays: the elapsed time counts as 500 whole
    milliseconds, which is not more than [keepAliveRate]. *)
Lemma C4_counterexample :
  let m := socket SocketState.Connected None [] in
  let m' := machine_of (tick quiet_short_of_501ms m) in
  env_system_clock_now quiet_short_of_501ms 1 - lastKeepAliveSent (sp m)
    > keepAliveRate * env_ticks_per_ms quiet_short_of_501ms /\
  diff_count quiet_short_of_501ms
    (env_system_clock_now quiet_short_of_501ms 1) (lastKeepAliveSent (sp m))
    = keepAliveRate /\
  state (sp m') = SocketState.Connected /\
  next_state (sp m') = SocketState.Connected /\
  last_error (sp m') = last_error (sp m) /\
  trace m' =
    [EvLock sendQueueMutex; EvUnlock sendQueueMutex; EvSys (sys_recv 5 4)] /\
  sends_of (trace m') = [] /\
  lastKeepAliveSent (sp m') = lastKeepAliveSent (sp m).
Proof.
  cbv zeta. split; [reflexivity|]. repeat split.
Qed.

(** C4 on a quiet connection, 501 ms after the last keepalive, whose probe
    fails. *)
Lemma C4_witness :
  exists m2,
    run_case quiet_then_reset SocketState.Connected
      (socket SocketState.Connected None []) = Done tt m2 /\
    sends_of (trace m2) = [keepalive] /\
    lastKeepAliveSent (sp m2) = 501000000 /\
    next_state (sp m2) = SocketState.Closing.
Proof.
  destruct (@C4_keepalive_after_interval _ quiet_then_reset
              (socket SocketState.Connected None [])
              (mkMachine
                     (mkSocketPrivate SocketState.Connected
                        SocketState.Connected "127.0.0.1" 9999
                        [1%nat; 2%nat] (Some WireMessage.make) [] [] 5
                        no_error 0)
                     1 11
                     [EvLock sendQueueMutex; EvUnlock sendQueueMutex;
                      EvSys (sys_recv 5 4)]))
    as (m2 & evs & Hrun & Htrace & Hsends & Hlast & _ & Hfail);
    try reflexivity; try (vm_compute; congruence).
  destruct Hfail as (_ & _ & _ & Hns & _); [reflexivity|].
  exists m2. rewrite Htrace, sends_of_app, Hsends.
  split; [exact Hrun|]. split; [reflexivity|].
  split; [exact Hlast | exact Hns].
Defined.

(** C7 on a queue of two messages. *)
Lemma C7_witness :
  let m' := machine_of (tick sends_keepalive
                          (socket SocketState.Connected None two_messages)) in
  sendQueue (sp m') = [] /\
  exists rest,
    trace m' =
      [EvLock sendQueueMutex; EvPopFront; EvPopFront;
       EvUnlock sendQueueMutex]
      ++ flat_map (frame_events sends_keepalive 5) two_messages ++ rest /\
    forallb (fun e => negb (on_send_queue e)) rest = true /\
    (sends_of rest = [] \/ sends_of rest = [keepalive]).
Proof.
  apply (C7_outbound_queue_sent_in_order sends_keepalive
           (socket SocketState.Connected None two_messages)).
  reflexivity.
Defined.

(** C10 on a frame whose type read is reset, and on an invalid frame whose
    last payload byte arrives. *)
Lemma C10_witness :
  (exists m' w',
     stage_type resets_type_read
       (socket SocketState.Connected
          (Some (frame_at WireMessage.MessageStateType)) []) = Done Next m' /\
     current_message (sp m') = Some w' /\
     WireMessage.isValid w' = false /\
     WireMessage.getData w' = [x00; x00]) /\
  (exists m',
     receiveNextMessage sends_last_byte
       (socket SocketState.Connected (Some invalid_frame) []) = Done tt m' /\
     current_message (sp m') = None /\
     trace m' = [EvSys (sys_recv 5 1)]).
Proof.
  split.
  - destruct (C10_invalid_frames_never_dispatched resets_type_read
                (socket SocketState.Connected
                   (Some (frame_at WireMessage.MessageStateType)) []))
      as (Htype & _ & _).
    destruct (Htype (frame_at WireMessage.MessageStateType))
      as (m' & w' & Hrun & Hcm & Hval & _ & _ & Hdata & _); try reflexivity.
    exists m', w'. repeat split; assumption.
  - destruct (C10_invalid_frames_never_dispatched sends_last_byte
                (socket SocketState.Connected (Some invalid_frame) []))
      as (_ & Hdata & _).
    destruct (Hdata invalid_frame 1 [x42])
      as (m' & Hrun & Htrace & _ & _ & _ & Hdone); try reflexivity.
    exists m'. split; [exact Hrun|]. split; [|exact Htrace].
    apply Hdone. reflexivity.
Defined.

(** C1 fails on the accept path: with [accept] answering -1 in the
    Listening state, the tick records and reports the fatal
    [AcceptFailedError] and drops the frame in progress, but the state it
    commits is Connected, not Error; the loop condition of [run] still
    holds, so [run] with fuel for that one tick has not left its loop. *)
Theorem C1_fatal_accept_failure_keeps_running :
  exists m',
    tick refuses_accept (socket SocketState.Listening None []) = Done tt m' /\
    last_error (sp m')
      = mkError ErrorCode.AcceptFailedError
          "Could not accept the incoming connection" true /\
    In (EvError 1%nat (last_error (sp m'))) (trace m') /\
    In (EvError 2%nat (last_error (sp m'))) (trace m') /\
    current_message (sp m') = None /\
    next_state (sp m') = SocketState.Connected /\
    state (sp m') = SocketState.Connected /\
    state (sp m') <> SocketState.Error /\
    running (sp m') = true /\
    run refuses_accept 1 (socket SocketState.Listening None [])
      = Done false m'.
Proof.
  eexists. split; [vm_compute; reflexivity|]. cbn [sp trace last_error
    current_message next_state state].
  repeat split; try reflexivity; try discriminate.
  - right. right. left. reflexivity.
  - right. right. right. left. reflexivity.
Qed.

End Runs.

(** * More of the code *)

(** ** Integers on the wire *)

Lemma Z_of_byte_range b : 0 <= Z_of_byte b < 256.
Proof.
  unfold Z_of_byte. pose proof (Byte.to_N_bounded b) as H.
  lia.
Qed.

Lemma Z_of_byte_of_Z x : Z_of_byte (byte_of_Z x) = x mod 256.
Proof.
  unfold Z_of_byte, byte_of_Z.
  assert (Hr : 0 <= x mod 256 < 256) by (apply Z.mod_pos_bound; lia).
  destruct (Byte.of_N (Z.to_N (x mod 256))) as [b|] eqn:Hb.
  - apply Byte.to_of_N in Hb. rewrite Hb. lia.
  - apply Byte.of_N_None_iff in Hb. lia.
Qed.

Lemma lor_shiftl_low hi lo k :
  0 <= k -> 0 <= lo < 2 ^ k -> Z.lor (Z.shiftl hi k) lo = hi * 2 ^ k + lo.
Proof.
  intros Hk Hlo. rewrite Z.shiftl_mul_pow2 by exact Hk.
  rewrite <- Z.lxor_lor, <- Z.add_nocarry_lxor; try reflexivity.
  all: apply Z.bits_inj'; intros n Hn; rewrite Z.land_spec, Z.bits_0;
    destruct (Z.lt_ge_cases n k) as [Hlt|Hge].
  all: try (rewrite Z.mul_pow2_bits_low by lia; reflexivity).
  all: replace lo with (lo mod 2 ^ k) by (apply Z.mod_small; lia);
    rewrite Z.mod_pow2_bits_high by lia; apply andb_false_r.
Qed.

Lemma ntohl_value b0 b1 b2 b3 :
  ntohl [b0; b1; b2; b3] =
    Some (Z_of_byte b0 * 2 ^ 24 + Z_of_byte b1 * 2 ^ 16
          + Z_of_byte b2 * 2 ^ 8 + Z_of_byte b3).
Proof.
  pose proof (Z_of_byte_range b0). pose proof (Z_of_byte_range b1).
  pose proof (Z_of_byte_range b2). pose proof (Z_of_byte_range b3).
  unfold ntohl. f_equal.
  rewrite (@lor_shiftl_low (Z_of_byte b2) (Z_of_byte b3) 8) by lia.
  rewrite (@lor_shiftl_low (Z_of_byte b1) _ 16) by lia.
  rewrite (@lor_shiftl_low (Z_of_byte b0) _ 24) by lia.
  lia.
Qed.

Lemma ntohl_htonl x : ntohl (htonl x) = Some (u32 x).
Proof.
  unfold htonl. rewrite ntohl_value. f_equal.
  rewrite !Z_of_byte_of_Z, !Z.shiftr_div_pow2 by lia.
  unfold u32. 
  assert (H : 0 <= x mod 2 ^ 32 < 2 ^ 32) by (apply Z.mod_pos_bound; lia).
  set (y := x mod 2 ^ 32) in *. clearbody y.
  change (2 ^ 24) with 16777216. change (2 ^ 16) with 65536.
  change (2 ^ 8) with 256. change (2 ^ 32) with 4294967296 in H.
  Z.to_euclidean_division_equations. lia.
Qed.

Lemma SIG_div n : SIG n = u32 n / 2 ^ 16.
Proof.
  unfold SIG. rewrite Z.shiftr_land.
  change (Z.shiftr 0xffff0000 16) with (Z.ones 16).
  rewrite Z.land_ones, Z.shiftr_div_pow2 by lia.
  apply Z.mod_small. unfold u32.
  assert (H : 0 <= n mod 2 ^ 32 < 2 ^ 32) by (apply Z.mod_pos_bound; lia).
  split; [apply Z.div_pos; lia|].
  apply Z.div_lt_upper_bound; lia.
Qed.

Lemma u32_idem x : u32 (u32 x) = u32 x.
Proof. unfold u32. apply Z.mod_mod. lia. Qed.

Lemma u32_small x : 0 <= x < 2 ^ 32 -> u32 x = x.
Proof. intros H. apply Z.mod_small. exact H. Qed.

Lemma to_int32_small x : 0 <= x < 2 ^ 31 -> to_int32 x = x.
Proof.
  intros H. unfold to_int32. rewrite u32_small by lia.
  destruct (Z.ltb_spec x (2 ^ 31)); lia.
Qed.

Lemma to_int32_range x : - 2 ^ 31 <= to_int32 x < 2 ^ 31.
Proof.
  unfold to_int32, u32.
  assert (H : 0 <= x mod 2 ^ 32 < 2 ^ 32) by (apply Z.mod_pos_bound; lia).
  destruct (Z.ltb_spec (x mod 2 ^ 32) (2 ^ 31)); lia.
Qed.

Lemma u32_to_int32 x : u32 (to_int32 x) = u32 x.
Proof.
  unfold to_int32. 
  destruct (Z.ltb_spec (u32 x) (2 ^ 31)); [apply u32_idem|].
  unfold u32. rewrite Zminus_mod, Z.mod_same, Z.sub_0_r, !Z.mod_mod by lia.
  reflexivity.
Qed.

Lemma to_int32_u32 x : to_int32 (u32 x) = to_int32 x.
Proof. unfold to_int32. now rewrite u32_idem. Qed.

Lemma int32_read_htonl v x : int32_read (Ret v (htonl x)) = Some (to_int32 x).
Proof.
  unfold int32_read. change (firstn 4 (htonl x)) with (htonl x).
  now rewrite ntohl_htonl, to_int32_u32.
Qed.

Lemma int32_read_range r z :
  int32_read r = Some z -> - 2 ^ 31 <= z < 2 ^ 31.
Proof.
  destruct r as [v data|e]; [|discriminate]. unfold int32_read.
  destruct (ntohl (firstn 4 data)); [|discriminate].
  intros H. injection H as <-. apply to_int32_range.
Qed.

Lemma store_at_length offset (got data : list byte) :
  0 <= offset ->
  (Z.to_nat offset + List.length got <= List.length data)%nat ->
  List.length (store_at offset got data) = List.length data.
Proof.
  intros Ho Hfit. unfold store_at.
  rewrite !length_app, length_firstn, length_skipn. lia.
Qed.

Lemma payload_read_bound w (data : list byte) :
  0 <= WireMessage.getSizeReceived w <= WireMessage.getSize w ->
  WireMessage.getSize w < 2 ^ 31 ->
  0 <= Z.of_nat (List.length
                   (firstn (Z.to_nat (WireMessage.getRemainingSize w)) data))
    <= WireMessage.getSize w - WireMessage.getSizeReceived w.
Proof.
  intros Hrc Hsz. unfold WireMessage.getRemainingSize.
  rewrite to_int32_small by lia.
  pose proof (firstn_le_length
                (Z.to_nat (WireMessage.getSize w - WireMessage.getSizeReceived w))
                data).
  lia.
Qed.

Ltac wf_ok H :=
  let HQ := fresh "HQ" in
  pose proof (proj1 H) as HQ;
  unfold frames_wf, frame_wf in *;
  cbn [sp current_message WireMessage.getState WireMessage.setState
       WireMessage.setSize WireMessage.setSizeReceived WireMessage.setValid
       WireMessage.setType WireMessage.setData WireMessage.allocateData
       WireMessage.isComplete WireMessage.isValid WireMessage.getSize
       WireMessage.getSizeReceived WireMessage.getData WireMessage.make] in *;
  repeat match goal with
         | Hst : WireMessage.getState ?w = _ |- _ => rewrite Hst in *; clear Hst
         end;
  try exact Logic.I; try exact HQ; try reflexivity.

Ltac wf_arith :=
  repeat match goal with
         | H : int32_read _ = Some _ |- _ => apply int32_read_range in H
         | H : (_ <? _) = false |- _ => apply Z.ltb_ge in H
         | H : (_ <? _) = true |- _ => apply Z.ltb_lt in H
         | H : (_ <=? _) = true |- _ => apply Z.leb_le in H
         | H : (_ <=? _) = false |- _ => apply Z.leb_gt in H
         end;
  change (u32 0) with 0 in *;
  rewrite ?repeat_length;
  rewrite ?u32_small by lia;
  try (intuition lia).

Ltac wf_payload :=
  match goal with
  | HQ : 0 <= WireMessage.getSizeReceived ?w <= _ /\ _ /\ _
    |- context [firstn (Z.to_nat (WireMessage.getRemainingSize ?w)) ?data] =>
      let Hrc := fresh "Hrc" in
      let Hsz := fresh "Hsz" in
      let Hlen := fresh "Hlen" in
      let Hb := fresh "Hb" in
      destruct HQ as (Hrc & Hsz & Hlen);
      pose proof (payload_read_bound w data Hrc Hsz) as Hb;
      rewrite ?u32_small by lia;
      rewrite ?store_at_length by lia;
      repeat split; lia
  end.

Lemma store_at_whole (data : list byte) n :
  List.length data = n -> store_at 0 data (repeat x00 n) = data.
Proof.
  intros H. unfold store_at. change (Z.to_nat 0) with 0%nat.
  cbn [firstn Nat.add app]. rewrite skipn_all2, app_nil_r; [reflexivity|].
  rewrite repeat_length. lia.
Qed.

Lemma firstn_whole (data : list byte) n :
  List.length data = n -> firstn n data = data.
Proof. intros <-. apply firstn_all. Qed.

Section Coverage.

Variable Message : Type.
Variable env : Env Message.
Implicit Types (m : Machine Message).

(** X1: a 32-bit word written in network byte order, as [sendMessage]
    writes the header, the size and the type tag, and delivered whole by one
    [recv], is what [readInt32] stores, as an [int32_t], with result 0; its
    32 bits are unchanged, and a value that fits a non-negative [int32_t] is
    read back as itself. *)
Theorem X1_readInt32_reads_back_htonl m x v dest :
  env_os env (calls m) (sys_recv (socketId (sp m)) 4) = Ret v (htonl x) ->
  readInt32 env dest m =
    Done (0, to_int32 x)
      (mkMachine (sp m) (S (calls m)) (errno m)
         (trace m ++ [EvSys (sys_recv (socketId (sp m)) 4)])) /\
  u32 (to_int32 x) = u32 x /\
  (0 <= x < 2 ^ 31 -> to_int32 x = x).
Proof.
  intros Hos. split; [|split].
  - rewrite readInt32_run. cbv zeta. rewrite Hos, int32_read_htonl.
    reflexivity.
  - apply u32_to_int32.
  - apply to_int32_small.
Qed.

Lemma signed_header_accepted major minor v :
  exists h,
    int32_read (Ret v [x2b; xad; major; minor]) = Some h /\
    h <> 0 /\ SIG h = ARCUS_SIGNATURE.
Proof.
  pose proof (Z_of_byte_range major). pose proof (Z_of_byte_range minor).
  unfold int32_read. change (firstn 4 [x2b; xad; major; minor])
    with [x2b; xad; major; minor].
  rewrite ntohl_value. eexists. split; [reflexivity|].
  change (Z_of_byte x2b) with 43. change (Z_of_byte xad) with 173.
  set (word := 43 * 2 ^ 24 + 173 * 2 ^ 16 + Z_of_byte major * 2 ^ 8
               + Z_of_byte minor).
  assert (Hw : 732758016 <= word < 732758016 + 65536) by (unfold word; lia).
  rewrite SIG_div, u32_to_int32, u32_small, to_int32_small by lia.
  split; [lia|]. unfold ARCUS_SIGNATURE.
  change (2 ^ 16) with 65536.
  Z.to_euclidean_division_equations. lia.
Qed.

(** X2: the header stage checks the 16-bit signature only: a header that
    begins with the bytes 0x2B 0xAD is accepted whatever the two version
    bytes are, and the frame moves on to the size stage with no error
    recorded or reported. *)
Theorem X2_version_bytes_not_checked m w major minor v :
  current_message (sp m) = Some w ->
  WireMessage.getState w = WireMessage.MessageStateHeader ->
  env_os env (calls m) (sys_recv (socketId (sp m)) 4)
    = Ret v [x2b; xad; major; minor] ->
  stage_header env m =
    Done Next
      (mkMachine
         (set_current_message
            (Some (WireMessage.setState WireMessage.MessageStateSize w))
            (sp m))
         (S (calls m)) (errno m)
         (trace m ++ [EvSys (sys_recv (socketId (sp m)) 4)])).
Proof.
  intros Hcm Hst Hos.
  destruct (signed_header_accepted major minor v) as (h & Hread & Hnz & Hsig).
  apply Z.eqb_neq in Hnz. apply Z.eqb_eq in Hsig.
  destruct_machine m. exec in Hcm. exec in Hos. subst cm.
  exec. rewrite Hst. cbv beta iota delta [WireMessage.state_eqb].
  rewrite readInt32_run. exec. rewrite Hos, Hread. exec.
  rewrite Hnz, Hsig. cbv beta iota delta [negb]. reflexivity.
Qed.

Lemma stage_header_wf t0 : stable (sized_frames t0) (stage_header env).
Proof.
  intros m H. destruct_machine m. unfold sized_frames in *.
  crunch env; leaf H ltac:(wf_ok H).
Qed.

Lemma stage_size_wf t0 : stable (sized_frames t0) (stage_size env).
Proof.
  intros m H. destruct_machine m. unfold sized_frames in *.
  crunch env; leaf H ltac:(wf_ok H); wf_arith.
Qed.

Lemma stage_type_wf t0 : stable (sized_frames t0) (stage_type env).
Proof.
  intros m H. destruct_machine m. unfold sized_frames in *.
  crunch env; leaf H ltac:(wf_ok H); wf_arith.
Qed.

Lemma stage_data_wf t0 : stable (sized_frames t0) (stage_data env).
Proof.
  intros m H. destruct_machine m. unfold sized_frames in *.
  crunch env; leaf H ltac:(wf_ok H); wf_arith; try wf_payload.
Qed.

Lemma stage_dispatch_wf t0 : stable (sized_frames t0) (stage_dispatch env).
Proof.
  intros m H. destruct_machine m. unfold sized_frames in *.
  crunch env; leaf H ltac:(wf_ok H); wf_arith.
Qed.

Lemma receive_wf t0 : stable (sized_frames t0) (receiveNextMessage env).
Proof.
  unfold receiveNextMessage.
  apply stable_bind; [apply stable_this | intros p].
  apply stable_bind.
  - destruct (current_message p); [apply stable_ret|].
    apply Inv_assign. intros q _. reflexivity.
  - intros _.
    apply stable_andthen; [apply stage_header_wf|].
    apply stable_andthen; [apply stage_size_wf|].
    apply stable_andthen; [apply stage_type_wf|].
    apply stable_andthen; [apply stage_data_wf|].
    apply stable_andthen; [apply stage_dispatch_wf|].
    apply stable_ret.
Qed.

Lemma run_case_wf t0 s : stable (sized_frames t0) (run_case env s).
Proof.
  destruct s; cbv beta iota delta [run_case]; unfold sized_frames;
    try solve [walk ltac:(solve [ reflexivity
                                | intros p H; exact H
                                | intros p H; exact Logic.I ])].
  apply stable_bind;
    [walk ltac:(solve [reflexivity | intros p H; exact H]) | intro].
  apply stable_bind;
    [walk ltac:(solve [reflexivity | intros p H; exact H]) | intro].
  apply stable_bind; [apply receive_wf | intro].
  walk ltac:(solve [reflexivity | intros p H; exact H]).
Qed.

Lemma tick_wf t0 : stable (sized_frames t0) (tick env).
Proof.
  unfold tick. apply stable_bind; [apply stable_this | intros p].
  apply stable_bind; [apply run_case_wf | intros _].
  unfold commit, sized_frames.
  walk ltac:(solve [reflexivity | intros q H; exact H]).
Qed.

Lemma run_wf t0 fuel : stable (sized_frames t0) (run env fuel).
Proof.
  induction fuel as [|fuel IH]; cbn [run];
    (apply stable_bind; [apply stable_this | intros p]);
    destruct (running p); try apply stable_ret.
  apply stable_bind; [apply tick_wf | intros _; exact IH].
Qed.

Lemma sized_frames_start (m : Machine Message) : frames_wf (sp m) -> sized_frames (trace m) m.
Proof.
  intros H. split; [exact H|]. exists []. now rewrite app_nil_r.
Qed.

(** X4: a receive cycle, and any number of iterations of [run], keep the
    frame in progress well formed: in particular, at the payload stage the
    bytes received never exceed the declared size and the buffer holds
    exactly the declared number of bytes. *)
Theorem X4_received_never_exceeds_declared_size m :
  frames_wf (sp m) ->
  frames_wf (sp (machine_of (receiveNextMessage env m))) /\
  (forall fuel, frames_wf (sp (machine_of (run env fuel m)))) /\
  (forall fuel w,
     current_message (sp (machine_of (run env fuel m))) = Some w ->
     WireMessage.getState w = WireMessage.MessageStateData ->
     0 <= WireMessage.getSizeReceived w <= WireMessage.getSize w /\
     Z.of_nat (List.length (WireMessage.getData w)) = WireMessage.getSize w).
Proof.
  intros H. apply sized_frames_start in H. split; [|split].
  - apply (receive_wf H).
  - intros fuel. apply (run_wf fuel H).
  - intros fuel w Hcm Hst. pose proof (proj1 (run_wf fuel H)) as Hw.
    unfold frames_wf in Hw. rewrite Hcm in Hw. unfold frame_wf in Hw.
    rewrite Hst in Hw. lia.
Qed.

(** X6: [handleMessage] has three outcomes.  An unknown type identifier
    records and reports the non-fatal [UnknownMessageTypeError]; a known type
    whose bytes do not parse records and reports the non-fatal
    [ParseFailedError]; in both the inbound queue is left as it was and no
    listener is told of a message, and the inbound queue's lock is not
    taken.  Otherwise the parsed message is appended at the tail of the
    inbound queue under its lock (the lock, the one [push_back] and the
    unlock are consecutive events) and then, the lock released, every
    listener is told once, with the last error left as it was. *)
Theorem X6_handleMessage_outcomes (w : WireMessage.WireMessage) m :
  let array := firstn (Z.to_nat (WireMessage.getSize w))
                 (WireMessage.getData w) in
  let parse := env_ParseFromCodedStream env
                 (env_createMessage env (WireMessage.getType w)) array
                 total_bytes_limit warning_threshold in
  let unknown :=
    mkError ErrorCode.UnknownMessageTypeError "Unknown message type" false in
  let unparsed :=
    mkError ErrorCode.ParseFailedError "Failed to parse message" false in
  (env_hasType env (WireMessage.getType w) = false ->
   handleMessage env w m =
     Done tt
       (mkMachine (set_last_error unknown (sp m)) (calls m) (errno m)
          (trace m ++ EvHandleMessage w
             :: map (fun l => EvError l unknown) (listeners (sp m))))) /\
  (env_hasType env (WireMessage.getType w) = true ->
   parse = None ->
   handleMessage env w m =
     Done tt
       (mkMachine (set_last_error unparsed (sp m)) (calls m) (errno m)
          (trace m ++ EvHandleMessage w
             :: map (fun l => EvError l unparsed) (listeners (sp m))))) /\
  (forall parsed,
     env_hasType env (WireMessage.getType w) = true ->
     parse = Some parsed ->
     handleMessage env w m =
       Done tt
         (mkMachine (set_receiveQueue (receiveQueue (sp m) ++ [parsed]) (sp m))
            (calls m) (errno m)
            (trace m ++ [EvHandleMessage w; EvLock receiveQueueMutex;
                         EvPushBack; EvUnlock receiveQueueMutex]
               ++ map EvMessageReceived (listeners (sp m))))).
Proof.
  intros array parse unknown unparsed. subst array parse.
  destruct_machine m. unfold handleMessage.
  split; [|split]; [intros Hty | intros Hty Hparse | intros parsed Hty Hparse];
    exec; rewrite Hty; cbv beta iota delta [negb]; try rewrite Hparse; exec.
  - rewrite error_run. exec. now rewrite <- app_assoc.
  - rewrite error_run. exec. now rewrite <- app_assoc.
  - rewrite notify_run. exec. now repeat rewrite <- app_assoc.
Qed.

Lemma handleMessage_keeps_frame (w : WireMessage.WireMessage) m :
  exists p' evs,
    handleMessage env w m =
      Done tt (mkMachine p' (calls m) (errno m)
                 (trace m ++ EvHandleMessage w :: evs)) /\
    current_message p' = current_message (sp m) /\
    state p' = state (sp m) /\ next_state p' = next_state (sp m).
Proof.
  destruct_machine m. unfold handleMessage. exec.
  destruct (env_hasType env (WireMessage.getType w));
    cbv beta iota delta [negb].
  - destruct (env_ParseFromCodedStream env _ _ _ _) as [parsed|]; exec.
    + rewrite notify_run. exec. eexists; eexists.
      split; [now repeat rewrite <- app_assoc|]. now repeat split.
    + rewrite error_run. exec. eexists; eexists.
      split; [now repeat rewrite <- app_assoc|]. now repeat split.
  - rewrite error_run. exec. eexists; eexists.
    split; [now repeat rewrite <- app_assoc|]. now repeat split.
Qed.

(** X5: a payload read into a valid, well-formed frame counts exactly the
    bytes delivered, never beyond the declared size; while the frame is
    incomplete the cycle keeps it, with the bytes stored at the offset reached
    so far, and when the read completes it the cycle enters [handleMessage]
    with the completed frame and leaves no frame in progress. *)
Theorem X5_payload_read_on_valid_frame m w v data :
  current_message (sp m) = Some w ->
  WireMessage.getState w = WireMessage.MessageStateData ->
  WireMessage.isValid w = true ->
  frame_wf w ->
  env_os env (calls m)
    (sys_recv (socketId (sp m)) (WireMessage.getRemainingSize w))
    = Ret v data ->
  let got := payload_read w data in
  let w' := accumulate w got in
  let read := EvSys (sys_recv (socketId (sp m))
                       (WireMessage.getRemainingSize w)) in
  WireMessage.getSizeReceived w'
    = WireMessage.getSizeReceived w + Z.of_nat (List.length got) /\
  WireMessage.getSizeReceived w' <= WireMessage.getSize w /\
  (WireMessage.getSizeReceived w' < WireMessage.getSize w ->
   receiveNextMessage env m =
     Done tt
       (mkMachine (set_current_message (Some w') (sp m))
          (S (calls m)) (errno m) (trace m ++ [read]))) /\
  (WireMessage.getSizeReceived w' = WireMessage.getSize w ->
   exists m' rest,
     receiveNextMessage env m = Done tt m' /\
     current_message (sp m') = None /\
     trace m' =
       trace m ++ read
         :: EvHandleMessage
              (WireMessage.setState WireMessage.MessageStateDispatch w')
         :: rest).
Proof.
  intros Hcm Hst Hval Hwf Hos got w' read.
  unfold frame_wf in Hwf. rewrite Hst in Hwf. destruct Hwf as (Hrc & Hsz & Hlen).
  pose proof (payload_read_bound w data Hrc Hsz) as Hk.
  fold (payload_read w data) in Hk. fold got in Hk.
  assert (Hrecv : WireMessage.getSizeReceived w'
                  = WireMessage.getSizeReceived w + Z.of_nat (List.length got)).
  { unfold w', accumulate.
    cbn [WireMessage.getSizeReceived WireMessage.setSizeReceived
         WireMessage.setData].
    apply u32_small. unfold got in *. lia. }
  split; [exact Hrecv|]. split; [unfold got in *; lia|].
  subst read. destruct_machine m. exec in Hcm. exec in Hos. subst cm.
  split; intros Hdone.
  - assert (Hc : WireMessage.isComplete w' = false).
    { unfold WireMessage.isComplete. apply Z.leb_gt. exact Hdone. }
    clear Hrecv Hdone Hk. subst w' got. unfold accumulate, payload_read in *.
    destruct w as [st sz rc vl ty dt].
    cbn [WireMessage.getState WireMessage.isValid] in Hst, Hval. subst st vl.
    frame_fields in Hos. frame_fields in Hc.
    unfold receiveNextMessage. exec_frame. rewrite Hos. exec_frame.
    repeat (rewrite length_not_minus_one; exec_frame).
    rewrite Hc. exec_frame. reflexivity.
  - assert (Hc : WireMessage.isComplete w' = true).
    { unfold WireMessage.isComplete. apply Z.leb_le. rewrite Hdone.
      apply Z.le_refl. }
    clear Hrecv Hdone Hk. subst w' got. unfold accumulate, payload_read in *.
    destruct w as [st sz rc vl ty dt].
    cbn [WireMessage.getState WireMessage.isValid] in Hst, Hval. subst st vl.
    frame_fields in Hos. frame_fields in Hc.
    unfold receiveNextMessage. exec_frame. rewrite Hos. exec_frame.
    repeat (rewrite length_not_minus_one; exec_frame).
    rewrite Hc. exec_frame. cbv beta iota delta [negb]. exec_frame.
    match goal with
    | |- context [handleMessage env ?W ?M] =>
        destruct (handleMessage_keeps_frame W M)
          as (p' & evs & -> & Hp' & _ & _)
    end.
    exec. eexists; eexists. split; [reflexivity|]. exec.
    split; [reflexivity|]. rewrite <- app_assoc. reflexivity.
Qed.

Lemma receive_fresh m :
  frame_in_progress (sp m) = WireMessage.make ->
  receiveNextMessage env m =
    receiveNextMessage env
      (mkMachine (set_current_message (Some WireMessage.make) (sp m))
         (calls m) (errno m) (trace m)).
Proof.
  destruct_machine m. intros Hw. exec in Hw.
  destruct cm as [w|]; [now subst w | reflexivity].
Qed.

(** X3: when the four buffers [sendMessage] writes for a message (header,
    size, type tag, serialized bytes) each arrive whole in one read, the
    serialized size fits an [int32_t] and is the length of the serialized
    bytes, the payload buffer can be allocated, the type is known and the
    bytes parse, one receive cycle on a fresh frame enters [handleMessage]
    with a frame of exactly that size, that type tag and those bytes,
    appends the parsed message to the inbound queue, tells every listener
    once, and leaves no frame in progress. *)
Theorem X3_sent_frame_is_received m message v0 v1 v2 v3 parsed :
  frame_in_progress (sp m) = WireMessage.make ->
  0 <= env_ByteSize env message < 2 ^ 31 ->
  Z.of_nat (List.length (env_SerializeAsString env message))
    = env_ByteSize env message ->
  let fd := socketId (sp m) in
  let n := calls m in
  let size := env_ByteSize env message in
  let type := u32 (env_getMessageTypeId env message) in
  env_os env n (sys_recv fd 4)
    = Ret v0 (nth 0 (frame_buffers env message) []) ->
  env_os env (S n) (sys_recv fd 4)
    = Ret v1 (nth 1 (frame_buffers env message) []) ->
  env_os env (S (S n)) (sys_recv fd 4)
    = Ret v2 (nth 2 (frame_buffers env message) []) ->
  env_can_allocate env (S (S (S n))) size = true ->
  env_os env (S (S (S (S n)))) (sys_recv fd size)
    = Ret v3 (nth 3 (frame_buffers env message) []) ->
  env_hasType env type = true ->
  env_ParseFromCodedStream env (env_createMessage env type)
    (env_SerializeAsString env message) total_bytes_limit warning_threshold
    = Some parsed ->
  receiveNextMessage env m =
    Done tt
      (mkMachine
         (set_receiveQueue (receiveQueue (sp m) ++ [parsed])
            (set_current_message None (sp m)))
         (5 + n) (errno m)
         (trace m
          ++ [EvSys (sys_recv fd 4); EvSys (sys_recv fd 4);
              EvSys (sys_recv fd 4); EvSys (sys_recv fd size);
              EvHandleMessage (received_frame env message);
              EvLock receiveQueueMutex; EvPushBack;
              EvUnlock receiveQueueMutex]
          ++ map EvMessageReceived (listeners (sp m)))).
Proof.
  intros Hfresh Hsize Hlen fd n size type H0 H1 H2 Halloc H3 Hty Hparse.
  cbn [nth frame_buffers] in H0, H1, H2, H3.
  fold header_word in H0.
  assert (Hhdr : to_int32 header_word = 732758272) by reflexivity.
  assert (Hsz : to_int32 size = size) by (apply to_int32_small; exact Hsize).
  assert (Hnat : List.length (env_SerializeAsString env message)
                 = Z.to_nat size) by (subst size; lia).
  subst fd n size type. rewrite receive_fresh by exact Hfresh. clear Hfresh.
  destruct_machine m. exec in H0. exec in H1.
  exec in H2. exec in H3. exec in Halloc.
  unfold receiveNextMessage, WireMessage.make. exec_frame.
  rewrite readInt32_run. exec. rewrite H0, int32_read_htonl, Hhdr. exec.
  change (732758272 =? 0) with false.
  change (negb (SIG 732758272 =? ARCUS_SIGNATURE)) with false. exec_frame.
  rewrite readInt32_run. exec. rewrite H1, int32_read_htonl, Hsz. exec.
  change (negb (0 =? 0)) with false. exec.
  replace (env_ByteSize env message <? 0) with false
    by (symmetry; apply Z.ltb_ge; lia).
  exec_frame.
  rewrite readInt32_run. exec. rewrite H2, int32_read_htonl. exec.
  change (negb (0 =? 0)) with false. exec_frame.
  rewrite (u32_small (x:=env_ByteSize env message)) by lia.
  rewrite Halloc. exec_frame.
  rewrite u32_idem, u32_to_int32.
  match goal with
  | |- context [WireMessage.getRemainingSize ?W] =>
      replace (WireMessage.getRemainingSize W) with (env_ByteSize env message)
        by (unfold WireMessage.getRemainingSize;
            cbn [WireMessage.getSize WireMessage.getSizeReceived];
            rewrite Z.sub_0_r; symmetry; exact Hsz)
  end.
  rewrite H3. exec_frame.
  rewrite (firstn_whole _ Hnat), length_not_minus_one. exec_frame.
  rewrite length_not_minus_one. exec_frame.
  rewrite (store_at_whole _ Hnat), Hlen, Z.add_0_l, u32_small by lia.
  unfold WireMessage.isComplete at 1. cbn [WireMessage.getSize
    WireMessage.getSizeReceived]. rewrite Z.leb_refl. exec_frame.
  cbv beta iota delta [negb]. exec_frame.
  unfold handleMessage. exec_frame. rewrite Hty.
  cbv beta iota delta [negb]. rewrite (firstn_whole _ Hnat), Hparse.
  exec. rewrite notify_run. exec.
  unfold received_frame. repeat rewrite <- app_assoc. reflexivity.
Qed.

(** X7: at the size stage, a read that does not deliver four bytes ends the
    cycle with the frame still at the size stage: silently, the object
    untouched, when [errno] (as that call leaves it, which for a short read
    is what an earlier call left) is [EAGAIN] on a non-Windows build; and
    otherwise with the non-fatal [ReceiveFailedError] recorded and reported
    to every listener. *)
Theorem X7_size_read_failure m w :
  current_message (sp m) = Some w ->
  WireMessage.getState w = WireMessage.MessageStateSize ->
  short_read (env_os env (calls m) (sys_recv (socketId (sp m)) 4)) = true ->
  let read := sys_recv (socketId (sp m)) 4 in
  let report := mkError ErrorCode.ReceiveFailedError "Size invalid" false in
  (retried env (errno_after env m read) = true ->
   receiveNextMessage env m =
     Done tt (mkMachine (sp m) (S (calls m)) (errno_after env m read)
                (trace m ++ [EvSys read]))) /\
  (retried env (errno_after env m read) = false ->
   receiveNextMessage env m =
     Done tt (mkMachine (set_last_error report (sp m)) (S (calls m))
                (errno_after env m read)
                (trace m ++ EvSys read
                   :: map (fun l => EvError l report) (listeners (sp m))))).
Proof.
  intros Hcm Hst Hshort read report. subst read.
  unfold retried, errno_after. destruct_machine m.
  exec in Hcm. exec in Hshort. subst cm.
  apply int32_read_short in Hshort.
  destruct w as [st sz rc vl ty dt]. cbn [WireMessage.getState] in Hst.
  subst st.
  split; intros Hretry; exec in Hretry;
    unfold receiveNextMessage; exec_frame;
    rewrite readInt32_run; exec; rewrite Hshort; exec;
    change (negb (-1 =? 0)) with true; exec; rewrite Hretry; exec.
  - reflexivity.
  - rewrite error_run. exec. now rewrite <- app_assoc.
Qed.

(** X8: at the type stage, a read that does not deliver four bytes and is
    taken for would-block ends the cycle with the object untouched: the frame
    stays valid at the type stage and no buffer is allocated. *)
Theorem X8_type_read_would_block m w :
  current_message (sp m) = Some w ->
  WireMessage.getState w = WireMessage.MessageStateType ->
  short_read (env_os env (calls m) (sys_recv (socketId (sp m)) 4)) = true ->
  let read := sys_recv (socketId (sp m)) 4 in
  retried env (errno_after env m read) = true ->
  receiveNextMessage env m =
    Done tt (mkMachine (sp m) (S (calls m)) (errno_after env m read)
               (trace m ++ [EvSys read])).
Proof.
  intros Hcm Hst Hshort read Hretry. subst read.
  unfold retried, errno_after in *. destruct_machine m.
  exec in Hcm. exec in Hshort. exec in Hretry. subst cm.
  apply int32_read_short in Hshort.
  destruct w as [st sz rc vl ty dt]. cbn [WireMessage.getState] in Hst.
  subst st.
  unfold receiveNextMessage. exec_frame.
  rewrite readInt32_run. exec. rewrite Hshort. exec.
  change (negb (-1 =? 0)) with true. exec. rewrite Hretry. exec.
  reflexivity.
Qed.

(** X9: at the payload stage, a failed read that is taken for would-block
    ends the cycle with the object untouched; any other failed read (every
    failed read on Windows) resets [current_message], and the cycle then
    dereferences the null pointer at the dispatch test. *)
Theorem X9_payload_read_failure m w e' :
  current_message (sp m) = Some w ->
  WireMessage.getState w = WireMessage.MessageStateData ->
  let read := sys_recv (socketId (sp m)) (WireMessage.getRemainingSize w) in
  env_os env (calls m) read = Fail e' ->
  (retried env e' = true ->
   receiveNextMessage env m =
     Done tt (mkMachine (sp m) (S (calls m)) e' (trace m ++ [EvSys read]))) /\
  (retried env e' = false ->
   receiveNextMessage env m =
     NullDeref (mkMachine (set_current_message None (sp m)) (S (calls m)) e'
                  (trace m ++ [EvSys read]))).
Proof.
  intros Hcm Hst read Hos. subst read. unfold retried.
  destruct_machine m. exec in Hcm. exec in Hos. subst cm.
  destruct w as [st sz rc vl ty dt]. cbn [WireMessage.getState] in Hst.
  subst st.
  split; intros Hretry;
    unfold receiveNextMessage; exec_frame; rewrite Hos; exec_frame;
    repeat (progress change (-1 =? -1) with true; exec_frame);
    rewrite Hretry; exec_frame;
    reflexivity.
Qed.





(** X13: in the Listening state, when [accept] returns a socket, the tick
    closes the listening socket, adopts the accepted one and sets its receive
    timeout to 250 ms, but leaves the pending state alone: a socket that was
    Listening with nothing else pending is still Listening after the tick,
    and no state-changed callback is called. *)
Theorem X13_accepted_socket_keeps_listening m :
  state (sp m) = SocketState.Listening ->
  next_state (sp m) = SocketState.Listening ->
  let old := socketId (sp m) in
  let newSocket := retval (env_os env (S (calls m)) (sys_accept old)) in
  newSocket <> -1 ->
  exists m',
    tick env m = Done tt m' /\
    sp m' = set_socketId newSocket (sp m) /\
    state (sp m') = SocketState.Listening /\
    next_state (sp m') = SocketState.Listening /\
    trace m' =
      trace m ++ [EvSys (sys_listen old 1); EvSys (sys_accept old);
                  EvSys (sys_close old);
                  EvSys (sys_setsockopt_rcvtimeo newSocket 0 250000)].
Proof.
  intros Hst Hns old newSocket Hacc. subst old newSocket.
  destruct_machine m. exec in Hst. exec in Hns. exec in Hacc. subst s ns.
  apply Z.eqb_neq in Hacc. exec. rewrite Hacc. exec.
  change (250 * 1000) with 250000.
  cbv beta iota delta [SocketState.eqb negb]. exec.
  eexists. split; [reflexivity|]. exec.
  repeat split. now repeat rewrite <- app_assoc.
Qed.

(** X14: a tick in the Closing state closes the socket, commits Closed and
    tells every listener once; [run] then leaves its loop, so from the
    Closing state [run] ends after exactly that one tick, whatever [close]
    answers. *)
Theorem X14_closing_tick_ends_run m :
  state (sp m) = SocketState.Closing ->
  let m' :=
    mkMachine
      (set_state SocketState.Closed
         (set_next_state SocketState.Closed (sp m)))
      (S (calls m)) (errno_after env m (sys_close (socketId (sp m))))
      (trace m ++ EvSys (sys_close (socketId (sp m)))
         :: map (fun l => EvStateChanged l SocketState.Closed)
                (listeners (sp m))) in
  tick env m = Done tt m' /\
  forall fuel, run env (S fuel) m = Done true m'.
Proof.
  intros Hst m'.
  assert (Htick : tick env m = Done tt m').
  { subst m'. unfold errno_after. destruct_machine m. exec in Hst. subst s.
    exec. cbv beta iota delta [SocketState.eqb negb].
    rewrite notify_run. exec. now rewrite <- app_assoc. }
  split; [exact Htick|]. intros fuel.
  rewrite run_step by (unfold running; now rewrite Hst).
  unfold bind. rewrite Htick. apply run_stop. reflexivity.
Qed.

(** X15: in the Initial state with nothing pending, [run] does nothing at
    all: however many iterations it is given, it makes no socket call, calls
    no callback, leaves the machine exactly as it was and never leaves its
    loop. *)
Theorem X15_initial_state_idles fuel m :
  state (sp m) = SocketState.Initial ->
  next_state (sp m) = SocketState.Initial ->
  run env fuel m = Done false m.
Proof.
  intros Hst Hns. induction fuel as [|fuel IH].
  - cbn [run]. unfold bind, this, running. now rewrite Hst.
  - rewrite run_step by (unfold running; now rewrite Hst).
    unfold bind.
    replace (tick env m) with (Done tt m); [exact IH|].
    destruct_machine m. exec in Hst. exec in Hns. subst s ns. reflexivity.
Qed.

(** X16: a tick in any state other than Connected neither sends nor
    receives: its events hold no [send] and no [recv]. *)
Theorem X16_only_connected_ticks_transfer m :
  state (sp m) <> SocketState.Connected ->
  exists evs,
    trace (machine_of (tick env m)) = trace m ++ evs /\
    forallb (fun e => negb (is_transfer e)) evs = true.
Proof.
  intros Hst.
  assert (H : stable (Inv (fun e => negb (is_transfer e))
                        (fun _ : SocketPrivate Message => True) (trace m))
                (bind (run_case env (state (sp m))) (fun _ => commit (Message:=Message)))).
  { destruct (state (sp m)); try contradiction;
      cbv beta iota delta [run_case]; unfold commit;
      walk ltac:(solve [reflexivity | auto]). }
  destruct (H m) as [_ Hevs].
  - split; [exact Logic.I|]. exists []. now rewrite app_nil_r.
  - exact Hevs.
Qed.

(** X17: in the Connected state, when the sends and the receive cycle of
    the tick leave the pending state Error, the keepalive check is skipped
    and the clock is not read; when they do not and the clock reads no more
    than [keepAliveRate] whole milliseconds past [lastKeepAliveSent], the
    clock is read, nothing is sent and [lastKeepAliveSent] stays. *)
Theorem X17_keepalive_skipped_or_not_due m m1 :
  state (sp m) = SocketState.Connected ->
  bind (drain (Message:=Message))
    (fun messagesToSend =>
       bind (send_all env messagesToSend)
         (fun _ => receiveNextMessage env)) m = Done tt m1 ->
  (next_state (sp m1) = SocketState.Error ->
   run_case env (state (sp m)) m = Done tt m1) /\
  (next_state (sp m1) <> SocketState.Error ->
   diff_count env (env_system_clock_now env (calls m1))
     (lastKeepAliveSent (sp m1)) <= keepAliveRate ->
   run_case env (state (sp m)) m =
     Done tt (mkMachine (sp m1) (S (calls m1)) (errno m1) (trace m1))).
Proof.
  intros Hst Hwork. rewrite Hst. cbv beta iota delta [run_case].
  unfold bind in Hwork |- *.
  destruct (drain m) as [messagesToSend ma|ma]; [|discriminate].
  destruct (send_all env messagesToSend ma) as [[] mb|mb]; [|discriminate].
  rewrite Hwork. destruct_machine m1. exec.
  split.
  - intros Hns. exec in Hns. subst ns. reflexivity.
  - intros Hns Hdiff. exec in Hns. exec in Hdiff.
    destruct (SocketStateFacts.eqb_spec ns SocketState.Error) as [|_];
      [contradiction|].
    cbv beta iota delta [negb]. exec.
    assert (Hc : (diff_count env (env_system_clock_now env c) lk
                  >? keepAliveRate) = false)
      by (rewrite Z.gtb_ltb; apply Z.ltb_ge; exact Hdiff).
    rewrite Hc. exec. reflexivity.
Qed.

(** X18: at the type stage, when the read of the type tag is not taken for
    would-block (it succeeded, or it failed otherwise) and the allocation of
    the payload buffer fails, the cycle ends with the fatal error recorded
    and reported to every listener, under the code [ReceiveFailedError] with
    the text "Out of memory", the frame dropped and the pending state
    Error. *)
Theorem X18_out_of_memory_is_fatal m w :
  current_message (sp m) = Some w ->
  WireMessage.getState w = WireMessage.MessageStateType ->
  let read := sys_recv (socketId (sp m)) 4 in
  (short_read (env_os env (calls m) read) = true ->
   retried env (errno_after env m read) = false) ->
  env_can_allocate env (S (calls m)) (WireMessage.getSize w) = false ->
  let report := mkError ErrorCode.ReceiveFailedError "Out of memory" true in
  receiveNextMessage env m =
    Done tt
      (mkMachine
         (set_next_state SocketState.Error
            (set_current_message None (set_last_error report (sp m))))
         (S (S (calls m))) (errno_after env m read)
         (trace m ++ EvSys read
            :: map (fun l => EvError l report) (listeners (sp m)))).
Proof.
  intros Hcm Hst read Hretry Halloc report. subst read.
  unfold retried, errno_after in *. destruct_machine m.
  exec in Hcm. exec in Hretry. exec in Halloc. subst cm.
  destruct w as [st sz rc vl ty dt]. cbn [WireMessage.getState] in Hst.
  subst st. frame_fields in Halloc.
  unfold receiveNextMessage. exec_frame. rewrite readInt32_run. exec.
  destruct (short_read (env_os env c (sys_recv fd 4))) eqn:Hshort.
  - rewrite (int32_read_short _ Hshort). exec.
    change (negb (-1 =? 0)) with true. exec.
    rewrite (Hretry eq_refl). exec_frame. rewrite Halloc. exec_frame.
    rewrite fatalError_run. exec. now rewrite <- app_assoc.
  - destruct (int32_read (env_os env c (sys_recv fd 4))) as [type|] eqn:Hread.
    + exec. change (negb (0 =? 0)) with false. exec_frame.
      rewrite Halloc. exec_frame. rewrite fatalError_run. exec.
      destruct (env_os env c (sys_recv fd 4)); [|discriminate].
      now rewrite <- app_assoc.
    + exfalso. destruct (env_os env c (sys_recv fd 4)) as [v data|];
        [|discriminate].
      unfold short_read in Hshort. unfold int32_read in Hread.
      apply negb_false_iff, Nat.eqb_eq in Hshort.
      destruct (firstn 4 data) as [|b0 [|b1 [|b2 [|b3 [|]]]]];
        discriminate.
Qed.


(** X20: whatever the [send]s answer, failure or partial write, the four
    writes of every message handed to the send loop are issued, in order, and
    the object is left exactly as it was: no error is recorded or reported
    and no state changes. *)
Theorem X20_send_results_are_ignored messagesToSend m :
  exists e',
    send_all env messagesToSend m =
      Done tt
        (mkMachine (sp m)
           (calls m + 4 * List.length messagesToSend)%nat e'
           (trace m ++ flat_map (frame_events env (socketId (sp m)))
                         messagesToSend)).
Proof.
  revert m. induction messagesToSend as [|message rest IH]; intros m.
  - exists (errno m). destruct m. cbn. unfold ret.
    now rewrite app_nil_r, Nat.add_0_r.
  - cbn [send_all flat_map List.length]. unfold bind.
    assert (Hone : exists e1,
      sendMessage env message m =
        Done tt (mkMachine (sp m) (S (S (S (S (calls m))))) e1
                   (trace m ++ frame_events env (socketId (sp m)) message))).
    { destruct_machine m. unfold sendMessage. exec. eexists.
      unfold frame_events, frame_buffers. cbn [map].
      now repeat rewrite <- app_assoc. }
    destruct Hone as (e1 & ->).
    destruct (IH (mkMachine (sp m) (S (S (S (S (calls m))))) e1
                    (trace m ++ frame_events env (socketId (sp m)) message)))
      as (e2 & ->).
    exists e2. cbn [sp calls trace]. f_equal. f_equal; [lia|].
    now rewrite <- app_assoc.
Qed.

Lemma run_case_extends p0 t0 s :
  stable (Inv (fun _ : Event => true) (extends p0) t0) (run_case env s).
Proof.
  destruct s; cbv beta iota delta [run_case];
    walk ltac:(solve
      [ reflexivity
      | intros p H; exact H
      | intros p (Ha & Hp & Hl & arrived & Hq);
        repeat split; try assumption;
        eexists; cbn; rewrite Hq, <- app_assoc; reflexivity ]).
Qed.

Lemma run_extends p0 t0 fuel :
  stable (Inv (fun _ : Event => true) (extends p0) t0) (run env fuel).
Proof.
  induction fuel as [|fuel IH]; cbn [run];
    (apply stable_bind; [apply stable_this | intros p]);
    destruct (running p); try apply stable_ret.
  apply stable_bind; [|intros _; exact IH].
  unfold tick. apply stable_bind; [apply stable_this | intros q].
  apply stable_bind; [apply run_case_extends | intros _].
  unfold commit. walk ltac:(solve [reflexivity | intros r H; exact H]).
Qed.

(** X21: any number of iterations of [run] leave the address, the port and
    the registered listeners as they were, and only ever append to the
    inbound queue: what was queued stays, in its order, at the head. *)
Theorem X21_run_only_appends_inbound fuel m :
  let p' := sp (machine_of (run env fuel m)) in
  address p' = address (sp m) /\ port p' = port (sp m) /\
  listeners p' = listeners (sp m) /\
  exists arrived, receiveQueue p' = receiveQueue (sp m) ++ arrived.
Proof.
  destruct (@run_extends (sp m) (trace m) fuel m) as [H _].
  - split.
    + repeat split. exists []. now rewrite app_nil_r.
    + exists []. now rewrite app_nil_r.
  - exact H.
Qed.

(** X22: a receive cycle leaves the connection state, the socket, the
    outbound queue, the listeners and [lastKeepAliveSent] as they were, and
    makes no socket call other than [recv]. *)
Theorem X22_receive_cycle_leaves_connection_alone m :
  let m' := machine_of (receiveNextMessage env m) in
  same_connection (sp m) (sp m') /\
  exists evs,
    trace m' = trace m ++ evs /\ forallb recv_at_most evs = true.
Proof.
  assert (H : stable (Inv recv_at_most (same_connection (sp m)) (trace m))
                (receiveNextMessage env)).
  { walk ltac:(solve [reflexivity | intros p H; exact H]). }
  apply H. split.
  - repeat split.
  - exists []. now rewrite app_nil_r.
Qed.

End Coverage.

(** ** The properties on concrete runs *)

Section CoverageRuns.
Import Demo.
Import Peer.

(** X1 on the word 300. *)
Lemma X1_witness :
  readInt32 (sends_word 300) 0 (socket SocketState.Connected None []) =
    Done (0, 300)
      (mkMachine (sp (socket SocketState.Connected None [])) 1 0
         [EvSys (sys_recv 5 4)]).
Proof.
  destruct (@X1_readInt32_reads_back_htonl _ (sends_word 300)
              (socket SocketState.Connected None []) 300 4 0)
    as (Hread & _ & _); [reflexivity|].
  exact Hread.
Defined.

(** X2 on a header of version 7.9. *)
Lemma X2_witness :
  exists m',
    stage_header (sends_header x07 x09)
      (socket SocketState.Connected
         (Some (frame_at WireMessage.MessageStateHeader)) []) = Done Next m' /\
    current_message (sp m') = Some (frame_at WireMessage.MessageStateSize) /\
    trace m' = [EvSys (sys_recv 5 4)].
Proof.
  eexists. split.
  - apply (@X2_version_bytes_not_checked _ (sends_header x07 x09)
             (socket SocketState.Connected
                (Some (frame_at WireMessage.MessageStateHeader)) [])
             (frame_at WireMessage.MessageStateHeader) x07 x09 4);
      reflexivity.
  - split; reflexivity.
Defined.

(** X3 on the message of type 7 with the bytes 01 02. *)
Lemma X3_witness :
  exists m',
    receiveNextMessage sends_a_message (socket SocketState.Connected None [])
      = Done tt m' /\
    receiveQueue (sp m') = [a_message] /\
    current_message (sp m') = None.
Proof.
  eexists. split.
  - apply (@X3_sent_frame_is_received _ sends_a_message
             (socket SocketState.Connected None []) a_message 4 4 4 2
             a_message);
      try reflexivity; vm_compute; split; congruence.
  - split; reflexivity.
Defined.

(** X4 on a frame with one byte of two received, whose last byte arrives. *)
Lemma X4_witness :
  frames_wf
    (sp (machine_of
           (receiveNextMessage sends_last_byte
              (socket SocketState.Connected (Some half_frame) [])))).
Proof.
  apply (@X4_received_never_exceeds_declared_size _ sends_last_byte
           (socket SocketState.Connected (Some half_frame) [])).
  vm_compute. repeat split; congruence.
Defined.

(** X5 on the same frame: the read completes it. *)
Lemma X5_witness :
  exists m' rest,
    receiveNextMessage sends_last_byte
      (socket SocketState.Connected (Some half_frame) []) = Done tt m' /\
    current_message (sp m') = None /\
    trace m' =
      EvSys (sys_recv 5 1)
        :: EvHandleMessage
             (WireMessage.mk WireMessage.MessageStateDispatch 2 2 true 7
                [x41; x42])
        :: rest.
Proof.
  destruct (@X5_payload_read_on_valid_frame _ sends_last_byte
              (socket SocketState.Connected (Some half_frame) [])
              half_frame 1 [x42])
    as (_ & _ & _ & Hdone); try reflexivity.
  - vm_compute. repeat split; congruence.
  - apply Hdone. reflexivity.
Defined.

(** X6 on a frame of the known type 7 whose two bytes parse. *)
Lemma X6_witness :
  exists m',
    handleMessage quiet
      (WireMessage.mk WireMessage.MessageStateDispatch 2 2 true 7 [x41; x42])
      (socket SocketState.Connected None []) = Done tt m' /\
    receiveQueue (sp m') = [(7, [x41; x42])] /\
    trace m' =
      [EvHandleMessage
         (WireMessage.mk WireMessage.MessageStateDispatch 2 2 true 7
            [x41; x42]);
       EvLock receiveQueueMutex; EvPushBack; EvUnlock receiveQueueMutex;
       EvMessageReceived 1%nat; EvMessageReceived 2%nat].
Proof.
  destruct (@X6_handleMessage_outcomes _ quiet
              (WireMessage.mk WireMessage.MessageStateDispatch 2 2 true 7
                 [x41; x42])
              (socket SocketState.Connected None []))
    as (_ & _ & Hparsed).
  eexists. split; [apply (Hparsed (7, [x41; x42])); reflexivity|].
  split; reflexivity.
Defined.

(** X7 on a size read reset by the peer. *)
Lemma X7_witness :
  exists m',
    receiveNextMessage resets_type_read
      (socket SocketState.Connected
         (Some (frame_at WireMessage.MessageStateSize)) []) = Done tt m' /\
    last_error (sp m')
      = mkError ErrorCode.ReceiveFailedError "Size invalid" false /\
    current_message (sp m') = Some (frame_at WireMessage.MessageStateSize).
Proof.
  destruct (@X7_size_read_failure _ resets_type_read
              (socket SocketState.Connected
                 (Some (frame_at WireMessage.MessageStateSize)) [])
              (frame_at WireMessage.MessageStateSize))
    as (_ & Hreport); try reflexivity.
  eexists. split; [apply Hreport; reflexivity|].
  split; reflexivity.
Defined.

(** X8 on a type read that would block. *)
Lemma X8_witness :
  receiveNextMessage quiet
    (socket SocketState.Connected
       (Some (frame_at WireMessage.MessageStateType)) []) =
    Done tt
      (mkMachine
         (sp (socket SocketState.Connected
                (Some (frame_at WireMessage.MessageStateType)) []))
         1 11 [EvSys (sys_recv 5 4)]).
Proof.
  apply (@X8_type_read_would_block _ quiet
           (socket SocketState.Connected
              (Some (frame_at WireMessage.MessageStateType)) [])
           (frame_at WireMessage.MessageStateType));
    reflexivity.
Defined.

(** X9 on a payload read reset by the peer. *)
Lemma X9_witness :
  exists m',
    receiveNextMessage resets_type_read
      (socket SocketState.Connected (Some half_frame) []) = NullDeref m' /\
    current_message (sp m') = None.
Proof.
  destruct (@X9_payload_read_failure _ resets_type_read
              (socket SocketState.Connected (Some half_frame) [])
              half_frame 104)
    as (_ & Hreset); try reflexivity.
  eexists. split; [apply Hreset; reflexivity|]. reflexivity.
Defined.




(** X13 on an accept that answers the socket 8. *)
Lemma X13_witness :
  exists m',
    tick accepts_peer (socket SocketState.Listening None []) = Done tt m' /\
    socketId (sp m') = 8 /\
    state (sp m') = SocketState.Listening /\
    next_state (sp m') = SocketState.Listening.
Proof.
  destruct (@X13_accepted_socket_keeps_listening _ accepts_peer
              (socket SocketState.Listening None []))
    as (m' & Htick & Hsp & Hst & Hns & _);
    try reflexivity; try (vm_compute; discriminate).
  exists m'. rewrite Hsp in *. repeat split; assumption.
Defined.

(** X14 on a closing socket with two listeners. *)
Lemma X14_witness :
  exists m',
    run quiet 1 (socket SocketState.Closing None []) = Done true m' /\
    state (sp m') = SocketState.Closed /\
    trace m' =
      [EvSys (sys_close 5); EvStateChanged 1%nat SocketState.Closed;
       EvStateChanged 2%nat SocketState.Closed].
Proof.
  destruct (@X14_closing_tick_ends_run _ quiet
              (socket SocketState.Closing None []))
    as (_ & Hrun); [reflexivity|].
  eexists. split; [apply Hrun|]. split; reflexivity.
Defined.

(** X15 on ten iterations. *)
Lemma X15_witness :
  run quiet 10 (socket SocketState.Initial None [])
    = Done false (socket SocketState.Initial None []).
Proof.
  apply (@X15_initial_state_idles _ quiet 10
           (socket SocketState.Initial None []));
    reflexivity.
Defined.

(** X16 on a listening socket whose [accept] fails. *)
Lemma X16_witness :
  exists evs,
    trace (machine_of (tick refuses_accept
                         (socket SocketState.Listening None []))) = evs /\
    forallb (fun e => negb (is_transfer e)) evs = true.
Proof.
  apply (@X16_only_connected_ticks_transfer _ refuses_accept
           (socket SocketState.Listening None [])).
  vm_compute. discriminate.
Defined.

(** X17 on a quiet connection whose last keepalive is not yet 500 ms old. *)
Lemma X17_witness :
  exists m',
    run_case quiet SocketState.Connected
      (socket SocketState.Connected None []) = Done tt m' /\
    calls m' = 2%nat /\
    trace m' =
      [EvLock sendQueueMutex; EvUnlock sendQueueMutex; EvSys (sys_recv 5 4)].
Proof.
  destruct (@X17_keepalive_skipped_or_not_due _ quiet
              (socket SocketState.Connected None [])
              (mkMachine
                 (mkSocketPrivate SocketState.Connected
                    SocketState.Connected "127.0.0.1" 9999
                    [1%nat; 2%nat] (Some WireMessage.make) [] [] 5
                    no_error 0)
                 1 11
                 [EvLock sendQueueMutex; EvUnlock sendQueueMutex;
                  EvSys (sys_recv 5 4)]))
    as (_ & Hidle); try reflexivity.
  eexists. split.
  - apply Hidle; vm_compute; discriminate.
  - split; reflexivity.
Defined.

(** X18 on a type tag that arrives when no buffer can be allocated. *)
Lemma X18_witness :
  exists m',
    receiveNextMessage sends_type_no_memory
      (socket SocketState.Connected
         (Some (frame_at WireMessage.MessageStateType)) []) = Done tt m' /\
    last_error (sp m')
      = mkError ErrorCode.ReceiveFailedError "Out of memory" true /\
    next_state (sp m') = SocketState.Error /\
    current_message (sp m') = None.
Proof.
  eexists. split.
  - apply (@X18_out_of_memory_is_fatal _ sends_type_no_memory
             (socket SocketState.Connected
                (Some (frame_at WireMessage.MessageStateType)) [])
             (frame_at WireMessage.MessageStateType));
      reflexivity.
  - repeat split.
Defined.


End CoverageRuns.
